(** * The request parser of the Go HTTP server, and its bounded body reader

    The program is the last [parseHTTPRequest] of the repository (the one that
    takes a [*bufio.Reader] and returns [(HTTPReq, error)], with the types
    [HTTPReq], [Header] and [LimitedBodyReader] declared above it), its
    [LimitedBodyReader.Read] and the [main] that starts it.  Go strings are byte
    strings: they are [string]s here, one [ascii] per byte.  Go's [int] is taken
    to be 64 bits wide; every length that is added up below is the length of a
    string held in memory, far below 2^63, so sums of lengths are plain [Z]
    additions.

    The parts of Go's library that the program calls ([strings], [strconv],
    [bufio], [io]) are modelled in modules of the same names. *)

From Stdlib Require Import String Ascii List ZArith Lia Bool Arith.
Import ListNotations.
Open Scope list_scope.
Open Scope string_scope.

(** ** Bytes *)

Definition LF : ascii := "010"%char.
Definition CR : ascii := "013"%char.
Definition CRLF : string := String CR (String LF "").

Definition byte (n : nat) : ascii := ascii_of_nat n.

Fixpoint revString (s acc : string) : string :=
  match s with
  | "" => acc
  | String c s' => revString s' (String c acc)
  end.

Fixpoint takeString (n : nat) (s : string) : string :=
  match n, s with
  | S n', String c s' => String c (takeString n' s')
  | _, _ => ""
  end.

Fixpoint dropString (n : nat) (s : string) : string :=
  match n, s with
  | S n', String _ s' => dropString n' s'
  | _, _ => s
  end.

Fixpoint repeatString (s : string) (n : nat) : string :=
  match n with
  | 0 => ""
  | S n' => s ++ repeatString s n'
  end.

(** ** Errors and results *)

(** Go's [error] values that the program can meet or make. *)
Inductive error : Type :=
| EOF                                             (* io.EOF *)
| ErrConn (what : string)                         (* another failure of the connection *)
| ErrSyntax                                       (* strconv.ErrSyntax, in a NumError *)
| ErrRange                                        (* strconv.ErrRange, in a NumError *)
| Errorf (text : string)                          (* fmt.Errorf of a text alone *)
| Wrapf (text : string) (wrapped : error)         (* fmt.Errorf with %w *).

(** What a call that returns [(A, error)] does: it returns, or it panics
    ([why] names the run-time error, without the numbers Go prints). *)
Inductive ret (A : Type) : Type :=
| Ret (a : A) (err : option error)
| Panics (why : string).
Arguments Ret {A} a err.
Arguments Panics {A} why.

(** ** package strings *)

(** What [strings.ToLower] needs of Unicode: on a string with a byte of 0x80
    or more it maps [unicode.ToLower] over the runes.  The case tables are not
    part of this repository; they are a parameter. *)
Class UnicodeTables : Type := { mapToLower : string -> string }.

Module strings.

Definition asciiSpace (c : ascii) : bool :=
  ((c =? " ") || (c =? byte 9) || (c =? LF) || (c =? byte 11) || (c =? byte 12) || (c =? CR))%char.

(** The two-byte UTF-8 encodings of white space: U+0085 and U+00A0. *)
Definition space2 (c1 c2 : ascii) : bool :=
  ((c1 =? byte 194) && ((c2 =? byte 133) || (c2 =? byte 160)))%char.

(** The three-byte ones: U+1680, U+2000..U+200A, U+2028, U+2029, U+202F,
    U+205F and U+3000. *)
Definition space3 (c1 c2 c3 : ascii) : bool :=
  let n3 := nat_of_ascii c3 in
  ((c1 =? byte 225) && (c2 =? byte 154) && (c3 =? byte 128))%char
  || ((c1 =? byte 226) && (c2 =? byte 128))%char
       && (((128 <=? n3) && (n3 <=? 138)) || (n3 =? 168) || (n3 =? 169) || (n3 =? 175))%nat
  || ((c1 =? byte 226) && (c2 =? byte 129) && (c3 =? byte 159))%char
  || ((c1 =? byte 227) && (c2 =? byte 128) && (c3 =? byte 128))%char.

(** Drops the white-space runes a string starts with.  With [fwd = false] the
    string is read backwards (it is a reversed string), so the bytes of a rune
    come last byte first. *)
Fixpoint trimLeading (fwd : bool) (s : string) : string :=
  match s with
  | "" => ""
  | String c1 s1 =>
    if asciiSpace c1 then trimLeading fwd s1 else
    match s1 with
    | "" => s
    | String c2 s2 =>
      if (if fwd then space2 c1 c2 else space2 c2 c1) then trimLeading fwd s2 else
      match s2 with
      | "" => s
      | String c3 s3 =>
        if (if fwd then space3 c1 c2 c3 else space3 c3 c2 c1) then trimLeading fwd s3 else s
      end
    end
  end.

(** [strings.TrimSpace]: the string without the white space, as Unicode has
    it, at its two ends.  Go's fast path over ASCII bytes and its slow path
    ([TrimFunc] with [unicode.IsSpace]) agree with this on every byte string:
    an invalid or cut-off encoding is no white space and stops the trimming. *)
Definition TrimSpace (s : string) : string :=
  revString (trimLeading false (revString (trimLeading true s) "")) "".

(** [strings.Split(s, sep)] at a separator of one byte: the pieces between
    the separators, one more than there are separators. *)
Fixpoint Split (s : string) (sep : ascii) : list string :=
  match s with
  | "" => [""]
  | String c s' =>
    if (c =? sep)%char then "" :: Split s' sep
    else match Split s' sep with
         | tok :: toks => String c tok :: toks
         | [] => [String c ""]
         end
  end.

(** [strings.Cut]: the text before and after the first separator. *)
Fixpoint Cut (s : string) (sep : ascii) : option (string * string) :=
  match s with
  | "" => None
  | String c s' =>
    if (c =? sep)%char then Some ("", s')
    else match Cut s' sep with
         | Some (before, after) => Some (String c before, after)
         | None => None
         end
  end.

(** [strings.SplitN(s, sep, n)] for [n >= 0]: at most [n] pieces, the last
    one the unsplit rest. *)
Fixpoint SplitN (s : string) (sep : ascii) (n : nat) : list string :=
  match n with
  | 0 => []
  | 1 => [s]
  | S n' =>
    match Cut s sep with
    | Some (before, after) => before :: SplitN after sep n'
    | None => [s]
    end
  end.

Fixpoint isASCII (s : string) : bool :=
  match s with
  | "" => true
  | String c s' => (nat_of_ascii c <? 128)%nat && isASCII s'
  end.

Definition lowerByte (c : ascii) : ascii :=
  let n := nat_of_ascii c in
  if ((65 <=? n) && (n <=? 90))%nat then ascii_of_nat (n + 32) else c.

Fixpoint mapBytes (f : ascii -> ascii) (s : string) : string :=
  match s with
  | "" => ""
  | String c s' => String (f c) (mapBytes f s')
  end.

(** [strings.ToLower]: byte by byte on an ASCII string, through the Unicode
    tables otherwise. *)
Definition ToLower {U : UnicodeTables} (s : string) : string :=
  if isASCII s then mapBytes lowerByte s else mapToLower s.

End strings.

(** ** package strconv *)

Module strconv.

Definition maxInt : Z := 2 ^ 63 - 1.
Definition minInt : Z := - 2 ^ 63.
Definition maxUint64 : Z := 2 ^ 64 - 1.

Definition digit (c : ascii) : option Z :=
  let n := nat_of_ascii c in
  if ((48 <=? n) && (n <=? 57))%nat then Some (Z.of_nat n - 48)%Z else None.

(** The loop of [ParseUint] in base 10 over the bytes still to come, [n] the
    number so far: a byte that is no digit is a syntax error; a digit that
    takes the number past [uint64] is a range error, returned at once, the
    bytes behind it unseen. *)
Fixpoint digits (s : string) (n : Z) : Z * option error :=
  match s with
  | "" => (n, None)
  | String c s' =>
    match digit c with
    | None => (0%Z, Some ErrSyntax)
    | Some d =>
      if (maxUint64 <? 10 * n + d)%Z then (maxUint64, Some ErrRange)
      else digits s' (10 * n + d)%Z
    end
  end.

(** [strconv.ParseUint(s, 10, 0)] *)
Definition ParseUint (s : string) : Z * option error :=
  match s with
  | "" => (0%Z, Some ErrSyntax)
  | _ => digits s 0
  end.

(** [strconv.Atoi], by way of [ParseInt(s, 10, 0)] with an [int] of 64 bits:
    an optional sign, then one decimal digit or more and nothing else; a
    value that does not fit [int] is a range error (and the nearest bound is
    returned with it).  The short cut that [Atoi] takes for strings of fewer
    than 19 bytes returns the same. *)
Definition Atoi (s : string) : Z * option error :=
  let '(neg, body) :=
    match s with
    | String "-" r => (true, r)
    | String "+" r => (false, r)
    | _ => (false, s)
    end in
  let cutoff := (2 ^ 63)%Z in
  match ParseUint body with
  | (un, None) | (un, Some ErrRange) =>
    if negb neg && (cutoff <=? un)%Z then (maxInt, Some ErrRange)
    else if neg && (cutoff <? un)%Z then (minInt, Some ErrRange)
    else ((if neg then - un else un)%Z, None)
  | (_, Some e) => (0%Z, Some e)
  end.

End strconv.

(** ** package io *)

Module io.

(** [io.Reader]: [Read s n] is a call [Read(p)] with [len(p) = n]; it returns
    the bytes it stored at the start of [p] (their number is Go's [n]), the
    error, and the reader afterwards.  The interface promises at most
    [len(p)] bytes. *)
Class Reader (Src : Type) : Type := {
  Read : Src -> nat -> (string * option error) * Src;
  Read_le : forall s n, String.length (fst (fst (Read s n))) <= n
}.

End io.

(** ** package bufio, over a connection *)

Module bufio.

(** What one read of the connection hands to the reader: a piece of the byte
    stream, never empty (a read of a connection waits for a byte or fails). *)
Record fragment : Type := { first : ascii; more : string }.

Definition bytes (f : fragment) : string := String (first f) (more f).

(** The connection ([net.Conn]) as the reader meets it: the pieces of the
    stream still to come, in the order and the sizes in which the reads will
    deliver them, and the error of every read after the last piece ([EOF]
    when the peer has closed).  A connection always ends here; on one that
    stays open and silent a read would block, and so would the parser. *)
Record Conn : Type := { arriving : list fragment; closing : error }.

(** [bufio.Reader]: the bytes fetched from the connection and not yet handed
    out, and the connection.  The fixed window of 4096 bytes only bounds how
    much one read of the connection can fetch, and [arriving] records what
    each read fetched; the slices [ReadString] piles up when a line outgrows
    the window are part of [pending] here, and so are the bytes of a fragment
    that a [Read] into a small [p] has to leave behind. *)
Record Reader : Type := { pending : string; rd : Conn }.

Definition NewReader (conn : Conn) : Reader := {| pending := ""; rd := conn |}.

Fixpoint streamOf (fs : list fragment) : string :=
  match fs with
  | [] => ""
  | f :: fs' => bytes f ++ streamOf fs'
  end.

(** The bytes a reader has yet to hand out, fetched or not. *)
Definition unread (b : Reader) : string := pending b ++ streamOf (arriving (rd b)).

(** The text up to the first [delim], with it, and the text after. *)
Fixpoint cutAfter (s : string) (delim : ascii) : option (string * string) :=
  match s with
  | "" => None
  | String c s' =>
    if (c =? delim)%char then Some (String c "", s')
    else match cutAfter s' delim with
         | Some (line, rest) => Some (String c line, rest)
         | None => None
         end
  end.

(** The loop of [ReadString]: look for [delim] in what has been fetched,
    fetch once more when it is not there, give up with what there is when the
    connection fails. *)
Fixpoint readUntil (delim : ascii) (have : string) (fs : list fragment) (e : error)
  : (string * option error) * Reader :=
  match cutAfter have delim with
  | Some (line, rest) =>
    ((line, None), {| pending := rest; rd := {| arriving := fs; closing := e |} |})
  | None =>
    match fs with
    | [] => ((have, Some e), {| pending := ""; rd := {| arriving := []; closing := e |} |})
    | f :: fs' => readUntil delim (have ++ bytes f) fs' e
    end
  end.

(** [Reader.ReadString(delim)]. *)
Definition ReadString (b : Reader) (delim : ascii) : (string * option error) * Reader :=
  readUntil delim (pending b) (arriving (rd b)) (closing (rd b)).

(** [Reader.Read(p)] with [len(p) = n]: nothing for an empty [p]; from the
    fetched bytes when there are some; else one read of the connection, whose
    bytes are handed out as far as [p] has room. *)
Definition Read (b : Reader) (n : nat) : (string * option error) * Reader :=
  match n with
  | 0 => (("", None), b)
  | _ =>
    match pending b with
    | "" =>
      match arriving (rd b) with
      | [] => (("", Some (closing (rd b))), b)
      | f :: fs =>
        ((takeString n (bytes f), None),
         {| pending := dropString n (bytes f);
            rd := {| arriving := fs; closing := closing (rd b) |} |})
      end
    | have => ((takeString n have, None), {| pending := dropString n have; rd := rd b |})
    end
  end.

End bufio.

(** ** package main *)

Record Header : Type := { Name : string; Value : string }.

(** [LimitedBodyReader], over any reader [Src] in the place of [*bufio.Reader]. *)
Record LimitedBodyReader (Src : Type) : Type := { buf : Src; remaining : Z }.
Arguments buf {Src} _.
Arguments remaining {Src} _.

(** [Body] is the [io.Reader] field: [None] is the nil interface; the only
    value the program ever stores in it is a [*LimitedBodyReader] on the
    reader the request was parsed from. *)
Record HTTPReq : Type := {
  Method : string;
  URI : string;
  Version : string;
  Headers : list Header;
  Body : option (LimitedBodyReader bufio.Reader)
}.

(** [HTTPReq{}] *)
Definition emptyReq : HTTPReq :=
  {| Method := ""; URI := ""; Version := ""; Headers := []; Body := None |}.

(** [func (r *LimitedBodyReader) Read(p []byte) (int, error)] with
    [len(p) = n].  The result carries the bytes [p[:n]] of Go's [(n, err)];
    slicing [p[:bytesIWant]] panics when [bytesIWant] is negative. *)
Definition LimitedBodyReader_Read {Src : Type} `{io.Reader Src}
    (r : LimitedBodyReader Src) (n : nat) : ret string * LimitedBodyReader Src :=
  if (remaining r =? 0)%Z then (Ret "" (Some EOF), r)
  else
    let bytesIWant := Z.min (Z.of_nat n) (remaining r) in
    if (bytesIWant <? 0)%Z then (Panics "slice bounds out of range", r)
    else
      let '((data, err), src) := io.Read (buf r) (Z.to_nat bytesIWant) in
      match err with
      | Some e =>
        (Ret "" (Some (Wrapf "An error occurred %w" e)),
         {| buf := src; remaining := remaining r |})
      | None =>
        (Ret data None,
         {| buf := src; remaining := (remaining r - Z.of_nat (String.length data))%Z |})
      end.

(** The local variables of [parseHTTPRequest] that live across iterations. *)
Record locals : Type := {
  httpReq : HTTPReq;
  headerArr : list Header;
  headerBytes : Z;
  contentLength : Z;
  isHeaderComplete : bool;
  count : Z
}.

Definition initially : locals :=
  {| httpReq := emptyReq; headerArr := []; headerBytes := 0; contentLength := 0;
     isHeaderComplete := false; count := 0 |}.

(** The [for header := range headerArr] loop: every [content-length] header
    is converted in turn, the last one stands, the first failure returns. *)
Fixpoint scanContentLength (hs : list Header) (contentLength : Z) : Z * option error :=
  match hs with
  | [] => (contentLength, None)
  | h :: hs' =>
    if (Name h =? "content-length")%string then
      match strconv.Atoi (Value h) with
      | (_, Some e) => (0%Z, Some e)
      | (v, None) => scanContentLength hs' v
      end
    else scanContentLength hs' contentLength
  end.

(** One iteration either goes round again or leaves the function. *)
Inductive flow : Type :=
| Continue (v : locals)
| Return (r : ret HTTPReq).

(** The body of the [for] loop after [reader.ReadString] has returned
    [(bytes, err)] and left the reader as [reader].  [lineData[1]] and
    [lineData[2]] panic when the split is too short ([lineData[0]] always
    exists). *)
Definition iteration {U : UnicodeTables}
    (v : locals) (reader : bufio.Reader) (bytes : string) (err : option error) : flow :=
  let line := bytes in
  match err with
  | Some e => Return (Ret emptyReq (Some (Wrapf "Something went wrong %w" e)))
  | None =>
    if negb (isHeaderComplete v) then
      let headerBytes := (headerBytes v + Z.of_nat (String.length bytes))%Z in
      if (8192 <? headerBytes)%Z then Return (Ret emptyReq (Some (Errorf "Buffer is too large")))
      else if (bytes =? CRLF)%string then
        Continue {| httpReq := httpReq v; headerArr := headerArr v; headerBytes := headerBytes;
                    contentLength := contentLength v; isHeaderComplete := true;
                    count := count v |}
      else if (count v =? 0)%Z then
        match strings.Split line " " with
        | m :: u :: ver :: _ =>
          Continue {| httpReq := {| Method := strings.TrimSpace m;
                                    URI := strings.TrimSpace u;
                                    Version := strings.TrimSpace ver;
                                    Headers := Headers (httpReq v);
                                    Body := Body (httpReq v) |};
                      headerArr := headerArr v; headerBytes := headerBytes;
                      contentLength := contentLength v; isHeaderComplete := false;
                      count := (count v + 1)%Z |}
        | _ => Return (Panics "index out of range")
        end
      else
        match strings.SplitN line ":" 2 with
        | name :: value :: _ =>
          let myHeader := {| Name := strings.ToLower (strings.TrimSpace name);
                             Value := strings.TrimSpace value |} in
          Continue {| httpReq := httpReq v; headerArr := headerArr v ++ [myHeader];
                      headerBytes := headerBytes; contentLength := contentLength v;
                      isHeaderComplete := false; count := (count v + 1)%Z |}
        | _ => Return (Panics "index out of range")
        end
    else
      let req := {| Method := Method (httpReq v); URI := URI (httpReq v);
                    Version := Version (httpReq v); Headers := headerArr v;
                    Body := Body (httpReq v) |} in
      if ((Method req =? "GET") || (Method req =? "HEAD"))%string then Return (Ret req None)
      else
        match scanContentLength (headerArr v) (contentLength v) with
        | (_, Some e) => Return (Ret emptyReq (Some (Wrapf "An error occurred %w" e)))
        | (n, None) =>
          Return (Ret {| Method := Method req; URI := URI req; Version := Version req;
                         Headers := Headers req;
                         Body := Some {| buf := reader; remaining := n |} |} None)
        end
  end.

(** The [for] loop of [parseHTTPRequest].  The reader is a pointer in Go: its
    state after the call is returned beside the result.  [None]: the fuel ran
    out before the loop left. *)
Fixpoint parseLoop {U : UnicodeTables} (fuel : nat) (v : locals) (reader : bufio.Reader)
  : option (ret HTTPReq * bufio.Reader) :=
  match fuel with
  | 0 => None
  | S fuel' =>
    let '((bytes, err), reader') := bufio.ReadString reader LF in
    match iteration v reader' bytes err with
    | Return r => Some (r, reader')
    | Continue v' => parseLoop fuel' v' reader'
    end
  end.

(** [func parseHTTPRequest(reader *bufio.Reader) (HTTPReq, error)].  Every
    iteration that goes round again has taken a line, a byte at least, off
    the unread stream: one more iteration than bytes is enough. *)
Definition parseHTTPRequest {U : UnicodeTables} (reader : bufio.Reader)
  : option (ret HTTPReq * bufio.Reader) :=
  parseLoop (S (String.length (bufio.unread reader))) initially reader.

(** The goroutine that [main] starts for an accepted connection:
    [go parseHTTPRequest(bufio.NewReader(conn))]. *)
Definition serve {U : UnicodeTables} (conn : bufio.Conn) : option (ret HTTPReq * bufio.Reader) :=
  parseHTTPRequest (bufio.NewReader conn).

(** [func main()], as a function of the connections that [ln.Accept] hands
    out: one goroutine for each, one call of the parser in it.  Go drops the
    results; here they are what [main] is seen to have done.  Nothing in
    [main] reads a connection a second time or closes it. *)
Definition main {U : UnicodeTables} (accepted : list bufio.Conn)
  : list (option (ret HTTPReq * bufio.Reader)) :=
  map serve accepted.

(** A consumer of a body, after [io.ReadAll]: it reads with a buffer of [n]
    bytes until the reader reports an error, and [io.EOF] ends the reading
    without error.  [None]: the fuel ran out first. *)
Fixpoint readAllFrom {Src : Type} `{io.Reader Src}
    (fuel n : nat) (r : LimitedBodyReader Src) (got : string)
  : option (ret string * LimitedBodyReader Src) :=
  match fuel with
  | 0 => None
  | S fuel' =>
    match LimitedBodyReader_Read r n with
    | (Panics why, r') => Some (Panics why, r')
    | (Ret data None, r') => readAllFrom fuel' n r' (got ++ data)
    | (Ret data (Some EOF), r') => Some (Ret (got ++ data) None, r')
    | (Ret data (Some e), r') => Some (Ret (got ++ data) (Some e), r')
    end
  end.

(** The consumer with the fuel it needs: every read that goes round again
    has lowered [remaining]. *)
Definition ReadAll {Src : Type} `{io.Reader Src} (n : nat) (r : LimitedBodyReader Src)
  : option (ret string * LimitedBodyReader Src) :=
  readAllFrom (S (Z.to_nat (remaining r))) n r "".

(** ** Readers *)

(** [*bufio.Reader] is an [io.Reader]. *)
#[export, refine] Instance bufio_Reader : io.Reader bufio.Reader :=
  {| io.Read := bufio.Read |}.
Proof.
  assert (T : forall n s, String.length (takeString n s) <= n).
  { induction n as [|n IH]; intros [|c s]; simpl; try lia. specialize (IH s); lia. }
  intros b n. unfold bufio.Read.
  destruct n as [|n]; [simpl; lia|].
  destruct (bufio.pending b) as [|c s].
  - destruct (bufio.arriving (bufio.rd b)); [simpl; lia | exact (T (S n) _)].
  - exact (T (S n) _).
Defined.

(** A reader that plays a script, each entry the bytes and the error of one
    read (bytes that do not fit the caller's buffer stay for the next read,
    the error with them); [io.EOF] once the script is over.  It stands for
    any source that can deliver bytes together with an error. *)
Definition script : Type := list (string * option error).

Definition script_Read (s : script) (n : nat) : (string * option error) * script :=
  match s with
  | [] => (("", Some EOF), [])
  | (data, err) :: s' =>
    if (String.length data <=? n)%nat then ((data, err), s')
    else ((takeString n data, None), (dropString n data, err) :: s')
  end.

#[export, refine] Instance script_Reader : io.Reader script :=
  {| io.Read := script_Read |}.
Proof.
  assert (T : forall n s, String.length (takeString n s) <= n).
  { induction n as [|n IH]; intros [|c s]; simpl; try lia. specialize (IH s); lia. }
  intros s n. destruct s as [|[data err] s']; simpl; [lia|].
  destruct (String.length data <=? n)%nat eqn:E; simpl.
  - apply Nat.leb_le; exact E.
  - apply T.
Defined.

(** ** Streams for the examples *)

(** The Unicode tables are never consulted on ASCII header names; the
    examples, all ASCII, run with tables that change nothing. *)
Definition noTables : UnicodeTables := {| mapToLower := fun s => s |}.

(** A connection that delivers the given pieces (empty ones are no delivery)
    and is then closed by the peer. *)
Fixpoint pieces (l : list string) : list bufio.fragment :=
  match l with
  | [] => []
  | "" :: l' => pieces l'
  | String c s :: l' => {| bufio.first := c; bufio.more := s |} :: pieces l'
  end.

Definition delivered (l : list string) : bufio.Conn :=
  {| bufio.arriving := pieces l; bufio.closing := EOF |}.

(** One byte per read. *)
Fixpoint bytewise (s : string) : list string :=
  match s with
  | "" => []
  | String c s' => String c "" :: bytewise s'
  end.

(** * The vocabulary of the statements *)

(** What [ReadString] makes of a stream [s] that fails with [e] at its end:
    the line returned, the error, and the stream left. *)
Definition firstLine (s : string) (d : ascii) (e : error) : (string * option error) * string :=
  match bufio.cutAfter s d with
  | Some (line, rest) => ((line, None), rest)
  | None => ((s, Some e), "")
  end.

(** A reader with the same unread bytes and nothing left to fetch. *)
Definition flat (b : bufio.Reader) : bufio.Reader :=
  {| bufio.pending := bufio.unread b;
     bufio.rd := {| bufio.arriving := []; bufio.closing := bufio.closing (bufio.rd b) |} |}.

Definition flatBody (r : LimitedBodyReader bufio.Reader) : LimitedBodyReader bufio.Reader :=
  {| buf := flat (buf r); remaining := remaining r |}.

Definition flatReq (req : HTTPReq) : HTTPReq :=
  {| Method := Method req; URI := URI req; Version := Version req; Headers := Headers req;
     Body := option_map flatBody (Body req) |}.

Definition flatRet (o : ret HTTPReq) : ret HTTPReq :=
  match o with
  | Ret req err => Ret (flatReq req) err
  | Panics why => Panics why
  end.

Definition flatFlow (f : flow) : flow :=
  match f with
  | Continue v => Continue v
  | Return o => Return (flatRet o)
  end.

Definition flatResult (res : option (ret HTTPReq * bufio.Reader))
  : option (ret HTTPReq * bufio.Reader) :=
  match res with
  | Some (o, b) => Some (flatRet o, flat b)
  | None => None
  end.

(** What a consumer gets out of a body of [remaining] bytes on a stream that
    fails with [e] at its end. *)
Definition bodyOf (stream : string) (remaining : Z) (e : error) : ret string :=
  if (remaining <? 0)%Z then Panics "slice bounds out of range"
  else if (remaining <=? Z.of_nat (String.length stream))%Z
       then Ret (takeString (Z.to_nat remaining) stream) None
       else Ret stream (Some (Wrapf "An error occurred %w" e)).

Definition prepend (got : string) (o : ret string) : ret string :=
  match o with
  | Ret s err => Ret (got ++ s) err
  | Panics why => Panics why
  end.

(** What the caller of the parser has of a request: its fields, and the
    bytes that reading [Body] to its end delivers ([None] when [Body] is
    nil). *)
Record seen : Type := {
  method : string;
  target : string;
  version : string;
  headers : list Header;
  body : option (ret string)
}.

(** The result of the parser as a handler that reads the body with buffers
    of [n] bytes sees it.  [None]: a call did not return. *)
Definition handled (n : nat) (res : option (ret HTTPReq * bufio.Reader)) : option (ret seen) :=
  match res with
  | None => None
  | Some (Panics why, _) => Some (Panics why)
  | Some (Ret req err, _) =>
    match Body req with
    | None =>
      Some (Ret {| method := Method req; target := URI req; version := Version req;
                   headers := Headers req; body := None |} err)
    | Some r =>
      match ReadAll n r with
      | None => None
      | Some (o, _) =>
        Some (Ret {| method := Method req; target := URI req; version := Version req;
                     headers := Headers req; body := Some o |} err)
      end
    end
  end.

(** A line as [ReadString] returns it: it ends at its first line feed. *)
Definition completeLine (l : string) : Prop := bufio.cutAfter l LF = Some (l, "").

Definition threeTokens (l : string) : bool :=
  (3 <=? List.length (strings.Split l " "))%nat.

Definition hasColon (l : string) : bool :=
  match strings.Cut l ":" with
  | Some _ => true
  | None => false
  end.

(** Lines that the loop takes in without leaving: a request line with three
    tokens or more when [first], then header lines with a colon each. *)
Fixpoint headLines (first : bool) (ls : list string) : bool :=
  match ls with
  | [] => true
  | l :: ls' => (if first then threeTokens l else hasColon l) && headLines false ls'
  end.

Fixpoint joined (ls : list string) : string :=
  match ls with
  | [] => ""
  | l :: ls' => l ++ joined ls'
  end.

Definition isContentLength (h : Header) : bool := (Name h =? "content-length")%string.

(** The length of the body in the words of the claim, not of the code: the
    number that the value of the last [content-length] header stands for,
    and 0 without such a header. *)
Definition lastContentLength (hs : list Header) : Z :=
  last (map (fun h => fst (strconv.Atoi (Value h))) (filter isContentLength hs)) 0%Z.

(** The locals that no iteration changes before the last one. *)
Definition fresh (v : locals) : Prop :=
  contentLength v = 0%Z /\ Body (httpReq v) = None.

Definition requestA : HTTPReq :=
  {| Method := "GET"; URI := "/a"; Version := "HTTP/1.1";
     Headers := [{| Name := "host"; Value := "x" |}]; Body := None |}.

(** The two pipelined requests of the specification's example. *)
Definition twoRequests : string :=
  "GET /a HTTP/1.1" ++ CRLF ++ "Host: x" ++ CRLF ++ CRLF
  ++ "GET /b HTTP/1.1" ++ CRLF ++ "Host: x" ++ CRLF ++ "Connection: close" ++ CRLF ++ CRLF.

(** A header block whose first line never ends within the cap: 8193 bytes
    arrive in three reads, 4096 more in a fourth, the line feed in a fifth. *)
Definition overlong : bufio.Conn :=
  delivered [repeatString "a" 4096; repeatString "a" 4096; "a";
             repeatString "b" 4096; String LF ""; "tail"].

(** The same start, and the peer closes without ever sending a line feed. *)
Definition unterminated : bufio.Conn :=
  delivered [repeatString "a" 4096; repeatString "a" 4096; "a"].

(** A chunked body of five bytes under a [Content-Length] of three. *)
Definition chunkedAndLength : string :=
  "POST /u HTTP/1.1" ++ CRLF ++ "Transfer-Encoding: chunked" ++ CRLF
  ++ "Content-Length: 3" ++ CRLF ++ CRLF
  ++ "5" ++ CRLF ++ "hello" ++ CRLF ++ "0" ++ CRLF ++ CRLF.

Definition getWithLength : string :=
  "GET /a HTTP/1.1" ++ CRLF ++ "Content-Length: 100" ++ CRLF ++ CRLF
  ++ "GET /b HTTP/1.1" ++ CRLF ++ "Host: x" ++ CRLF ++ CRLF.

Definition negativeLength : string :=
  "POST /u HTTP/1.1" ++ CRLF ++ "Content-Length: -5" ++ CRLF ++ CRLF ++ "hello" ++ CRLF.

Definition padded : string :=
  "X-Pad: " ++ repeatString "a" 4096 ++ repeatString "a" 4096 ++ CRLF.

(** The parsed request of [chunkedAndLength], and the reader behind it. *)
Definition afterChunkedHead : bufio.Reader :=
  {| bufio.pending := "hello" ++ CRLF ++ "0" ++ CRLF ++ CRLF; bufio.rd := delivered [] |}.

Definition chunkedRequest : HTTPReq :=
  {| Method := "POST"; URI := "/u"; Version := "HTTP/1.1";
     Headers := [{| Name := "transfer-encoding"; Value := "chunked" |};
                 {| Name := "content-length"; Value := "3" |}];
     Body := Some {| buf := afterChunkedHead; remaining := 3 |} |}.

(** The body reader that parsing makes of [negativeLength]. *)
Definition negativeBody : LimitedBodyReader bufio.Reader :=
  {| buf := {| bufio.pending := ""; bufio.rd := delivered [] |}; remaining := (-5) |}.

(** [remaining] after each of a sequence of reads with buffers of the given
    sizes. *)
Fixpoint remainingAfter {Src : Type} `{io.Reader Src}
    (r : LimitedBodyReader Src) (sizes : list nat) : list Z :=
  match sizes with
  | [] => []
  | n :: sizes' =>
    let r' := snd (LimitedBodyReader_Read r n) in
    remaining r' :: remainingAfter r' sizes'
  end.

(** Every value is at most the one before it, and none is negative. *)
Fixpoint descends (x : Z) (l : list Z) : Prop :=
  match l with
  | [] => True
  | y :: l' => (0 <= y <= x)%Z /\ descends y l'
  end.

(** * The other programs of the repository *)

(** ** package net *)

Module net.

(** [conn.Read(p)] with [len(p) = n]: nothing for an empty [p]; else the
    bytes of the next piece as far as [p] has room (what does not fit stays
    first in line), or the error of the connection when no piece is left. *)
Definition Read (conn : bufio.Conn) (n : nat) : (string * option error) * bufio.Conn :=
  match n with
  | 0 => (("", None), conn)
  | _ =>
    match bufio.arriving conn with
    | [] => (("", Some (bufio.closing conn)), conn)
    | f :: fs =>
      ((takeString n (bufio.bytes f), None),
       {| bufio.arriving := pieces [dropString n (bufio.bytes f)] ++ fs;
          bufio.closing := bufio.closing conn |})
    end
  end.

End net.

(** [err.Error()].  For the two [strconv] errors this is the text of the
    sentinel (Go's [NumError] puts the function and the input before it);
    [fmt.Errorf] with [%w] puts the text of the wrapped error in its place. *)
Fixpoint Error (e : error) : string :=
  match e with
  | EOF => "EOF"
  | ErrConn what => what
  | ErrSyntax => "invalid syntax"
  | ErrRange => "value out of range"
  | Errorf text => text
  | Wrapf text wrapped =>
    (fix format (t : string) : string :=
       match t with
       | String "%" (String "w" rest) => Error wrapped ++ rest
       | String c rest => String c (format rest)
       | "" => ""
       end) text
  end.

(** What a connection handler has done when it returns: the data of its
    [conn.Write] calls and the texts it printed, in order, and what it leaves
    behind ([left]: the connection, or the reader on it).  Every handler below
    closes the connection on its way out ([defer conn.Close()], or
    [conn.Close()] as its last statement), and none looks at what [Write]
    returns. *)
Record served (C : Type) : Type := {
  written : list string;
  printed : list string;
  left : C
}.
Arguments written {C} _.
Arguments printed {C} _.
Arguments left {C} _.

(** ** The echo server (src/unnamed/part_001, second file) *)

Module tcp_go.

(** The [for] loop of [handleConnection]; [None]: the fuel ran out. *)
Fixpoint echoLoop (fuel : nat) (con : bufio.Conn) (out : list string)
  : option (served bufio.Conn) :=
  match fuel with
  | 0 => None
  | S fuel' =>
    let '((data, err), con') := net.Read con 4096 in
    match err with
    | Some _ => Some {| written := out; printed := []; left := con' |}
    | None =>
      if (data =? "q")%string
      then Some {| written := out; printed := ["Goodbye"]; left := con' |}
      else echoLoop fuel' con' (out ++ [data])
    end
  end.

(** [func handleConnection(con net.Conn)].  On [io.EOF] the loop breaks, on
    another error the function returns: the same either way.  Every read
    that goes round again has taken a byte off the stream. *)
Definition handleConnection (con : bufio.Conn) : option (served bufio.Conn) :=
  echoLoop (S (String.length (bufio.streamOf (bufio.arriving con)))) con [].

End tcp_go.

(** ** The one-shot echo (src/unnamed/part_002, package tcp) *)

Module tcp.

(** [func handleConn(conn net.Conn)]: one read into a fresh buffer of 4096
    zero bytes, its results dropped, and one write of the whole buffer
    ([n := len(buf)]). *)
Definition handleConn (conn : bufio.Conn) : served bufio.Conn :=
  let '((data, _), conn') := net.Read conn 4096 in
  {| written := [data ++ repeatString (String zero "") (4096 - String.length data)];
     printed := [];
     left := conn' |}.

End tcp.

(** ** The line protocol (src/src/main.go, second file) *)

Module lines.

(** [strings.TrimRight(s, cutset)] for a cutset of the one byte [c]. *)
Fixpoint TrimRight (s : string) (c : ascii) : string :=
  match s with
  | "" => ""
  | String a s' =>
    match TrimRight s' c with
    | "" => if (a =? c)%char then "" else String a ""
    | t => String a t
    end
  end.

(** What an iteration does with the line read, when there is one. *)
Definition reply (line : string) : option (string * bool) :=
  match line with
  | "" => None
  | _ =>
    let text := TrimRight line LF in
    if (text =? "quit")%string then Some ("Bye." ++ String LF "", true)
    else Some ("Echo: " ++ text ++ String LF "", false)
  end.

(** The [for] loop of [handleConn]; [None]: the fuel ran out. *)
Fixpoint lineLoop (fuel : nat) (reader : bufio.Reader) (out : list string)
  : option (served bufio.Reader) :=
  match fuel with
  | 0 => None
  | S fuel' =>
    let '((line, err), reader') := bufio.ReadString reader LF in
    match reply line with
    | Some (answer, true) =>
      Some {| written := (out ++ [answer])%list; printed := []; left := reader' |}
    | r =>
      let out' := match r with Some (answer, _) => (out ++ [answer])%list | None => out end in
      match err with
      | Some e =>
        Some {| written := out';
                printed := if (Error e =? "EOF")%string then []
                           else ["connection error: " ++ Error e ++ String LF ""];
                left := reader' |}
      | None => lineLoop fuel' reader' out'
      end
    end
  end.

(** [func handleConn(conn net.Conn)]. *)
Definition handleConn (conn : bufio.Conn) : option (served bufio.Reader) :=
  lineLoop (S (String.length (bufio.streamOf (bufio.arriving conn)))) (bufio.NewReader conn) [].

End lines.

(** ** The parser of the header alone (src/unnamed/part_000, last file) *)

Module HeaderParser.

(** [HTTPReq] of this file has no [Body]; its [Header] is the one above. *)
Record HTTPReq : Type := {
  Method : string;
  URI : string;
  Version : string;
  Headers : list Header
}.

Definition emptyReq : HTTPReq := {| Method := ""; URI := ""; Version := ""; Headers := [] |}.

Record locals : Type := {
  httpReq : HTTPReq;
  headerArr : list Header;
  totalBytes : Z;
  count : Z
}.

Definition initially : locals :=
  {| httpReq := emptyReq; headerArr := []; totalBytes := 0; count := 0 |}.

Inductive flow : Type :=
| Continue (v : locals)
| Break (v : locals)
| Return (r : ret HTTPReq).

(** The body of the [for] loop after [reader.ReadString] has returned
    [(b, err)]. *)
Definition iteration (v : locals) (b : string) (err : option error) : flow :=
  let totalBytes := (totalBytes v + Z.of_nat (String.length b))%Z in
  match err with
  | Some e => Return (Ret emptyReq (Some (Wrapf "Something went wrong %w" e)))
  | None =>
    if (8192 <? totalBytes)%Z then Return (Ret emptyReq (Some (Errorf "Buffer is too large")))
    else if (b =? CRLF)%string then
      Break {| httpReq := httpReq v; headerArr := headerArr v; totalBytes := totalBytes;
               count := count v |}
    else
      let line := b in
      if (count v =? 0)%Z then
        match strings.Split line " " with
        | m :: u :: ver :: _ =>
          Continue {| httpReq := {| Method := strings.TrimSpace m;
                                    URI := strings.TrimSpace u;
                                    Version := strings.TrimSpace ver;
                                    Headers := Headers (httpReq v) |};
                      headerArr := headerArr v; totalBytes := totalBytes;
                      count := (count v + 1)%Z |}
        | _ => Return (Panics "index out of range")
        end
      else
        match strings.SplitN line ":" 2 with
        | name :: value :: _ =>
          let myHeader := {| Name := strings.TrimSpace name;
                             Value := strings.TrimSpace value |} in
          Continue {| httpReq := httpReq v; headerArr := (headerArr v ++ [myHeader])%list;
                      totalBytes := totalBytes; count := (count v + 1)%Z |}
        | _ => Return (Panics "index out of range")
        end
  end.

(** What follows the loop: [httpReq.Headers = headerArr; return httpReq, nil]. *)
Definition finish (v : locals) : HTTPReq :=
  {| Method := Method (httpReq v); URI := URI (httpReq v); Version := Version (httpReq v);
     Headers := headerArr v |}.

Fixpoint parseLoop (fuel : nat) (v : locals) (reader : bufio.Reader)
  : option (ret HTTPReq * bufio.Reader) :=
  match fuel with
  | 0 => None
  | S fuel' =>
    let '((b, err), reader') := bufio.ReadString reader LF in
    match iteration v b err with
    | Return r => Some (r, reader')
    | Break v' => Some (Ret (finish v') None, reader')
    | Continue v' => parseLoop fuel' v' reader'
    end
  end.

(** [func parseHTTPRequest(reader *bufio.Reader) (HTTPReq, error)]. *)
Definition parseHTTPRequest (reader : bufio.Reader) : option (ret HTTPReq * bufio.Reader) :=
  parseLoop (S (String.length (bufio.unread reader))) initially reader.

End HeaderParser.

(** ** Lines that end in CR LF, as two programs cut them *)

(** [len(line) >= 2 && line[len(line)-2] == '\r' && line[len(line)-1] == '\n'] *)
Fixpoint endsCRLF (line : string) : bool :=
  match line with
  | "" => false
  | String a rest =>
    match rest with
    | String b "" => ((a =? CR) && (b =? LF))%char
    | _ => endsCRLF rest
    end
  end.

(** [bytes.Index(s, sep)]: where [sep] first starts in [s], if anywhere
    ([strings.Contains] is whether it does). *)
Fixpoint bytes_Index (s sep : string) : option nat :=
  if String.prefix sep s then Some 0
  else match s with
       | "" => None
       | String _ s' => option_map S (bytes_Index s' sep)
       end.

(** ** The parser on the connection itself (src/unnamed/part_001, first file) *)

Module ConnParser.

(** What the scan of the header keeps from one byte to the next. *)
Record scan : Type := {
  httpReq : HeaderParser.HTTPReq;
  headerArr : list Header;
  line : string;
  count : Z
}.

(** The loop [for i := 0; i < len(header); i++] over the bytes of [header]
    that are still to come. *)
Fixpoint scanHeader (header : string) (st : scan) : ret scan :=
  match header with
  | "" => Ret st None
  | String c rest =>
    let line := line st ++ String c "" in
    if endsCRLF line then
      if (count st =? 0)%Z then
        match strings.Split line " " with
        | m :: u :: ver :: _ =>
          scanHeader rest
            {| httpReq := {| HeaderParser.Method := strings.TrimSpace m;
                             HeaderParser.URI := strings.TrimSpace u;
                             HeaderParser.Version := strings.TrimSpace ver;
                             HeaderParser.Headers := HeaderParser.Headers (httpReq st) |};
               headerArr := headerArr st; line := ""; count := (count st + 1)%Z |}
        | _ => Panics "index out of range"
        end
      else
        match strings.SplitN line ":" 2 with
        | name :: value :: _ =>
          let myHeader := {| Name := strings.TrimSpace name;
                             Value := strings.TrimSpace value |} in
          scanHeader rest
            {| httpReq := httpReq st; headerArr := (headerArr st ++ [myHeader])%list;
               line := ""; count := (count st + 1)%Z |}
        | _ => Panics "index out of range"
        end
    else scanHeader rest {| httpReq := httpReq st; headerArr := headerArr st; line := line;
                            count := count st |}
  end.

(** What is done once the bytes read hold an empty line: the header is what
    comes before it, and its lines are scanned. *)
Definition parseHeader (fullRequest : string) (idx : nat) : ret HeaderParser.HTTPReq :=
  let header := takeString idx fullRequest in
  match scanHeader header {| httpReq := HeaderParser.emptyReq; headerArr := []; line := "";
                             count := 0 |} with
  | Panics why => Panics why
  | Ret st _ =>
    Ret {| HeaderParser.Method := HeaderParser.Method (httpReq st);
           HeaderParser.URI := HeaderParser.URI (httpReq st);
           HeaderParser.Version := HeaderParser.Version (httpReq st);
           HeaderParser.Headers := headerArr st |} None
  end.

(** The outer [for] loop; [fullRequest] is what has been read so far.  A
    failed read breaks out of it and the request, still empty, is returned;
    the function has no error to return. *)
Fixpoint readLoop (fuel : nat) (conn : bufio.Conn) (fullRequest : string)
  : option (ret HeaderParser.HTTPReq * bufio.Conn) :=
  match fuel with
  | 0 => None
  | S fuel' =>
    let '((data, err), conn') := net.Read conn (2 * 4096) (* 8192 *) in
    match err with
    | Some _ => Some (Ret HeaderParser.emptyReq None, conn')
    | None =>
      let fullRequest := fullRequest ++ data in
      if (8192 <? Z.of_nat (String.length fullRequest))%Z
      then Some (Ret HeaderParser.emptyReq None, conn')
      else
        match bytes_Index fullRequest (CRLF ++ CRLF) with
        | Some idx => Some (parseHeader fullRequest idx, conn')
        | None => readLoop fuel' conn' fullRequest
        end
    end
  end.

(** [func parseHTTPRequest(conn net.Conn) HTTPReq].  Its [HTTPReq] is the
    one of the parser of the header alone. *)
Definition parseHTTPRequest (conn : bufio.Conn) : option (ret HeaderParser.HTTPReq * bufio.Conn) :=
  readLoop (S (String.length (bufio.streamOf (bufio.arriving conn)))) conn "".

End ConnParser.

(** ** The printer of lines (src/src/main.go, first file) *)

Module LinePrinter.

(** The inner loop over all the bytes read so far: every line that ends in
    CR LF is announced and printed. *)
Fixpoint printLines (header : string) (line : string) (out : list string) : list string :=
  match header with
  | "" => out
  | String c rest =>
    let line := line ++ String c "" in
    if endsCRLF line
    then printLines rest "" (out ++ ["End of line reached" ++ String LF ""; line])
    else printLines rest line out
  end.

Fixpoint readLoop (fuel : nat) (conn : bufio.Conn) (fullRequest : string) (out : list string)
  : option (served bufio.Conn) :=
  match fuel with
  | 0 => None
  | S fuel' =>
    let '((data, err), conn') := net.Read conn (2 * 4096) (* 8192 *) in
    match err with
    | Some _ => Some {| written := []; printed := out; left := conn' |}
    | None =>
      let fullRequest := fullRequest ++ data in
      match bytes_Index fullRequest (CRLF ++ CRLF) with
      | Some _ => readLoop fuel' conn' fullRequest (printLines fullRequest "" out)
      | None => readLoop fuel' conn' fullRequest out
      end
    end
  end.

(** [func httpRequestParser(conn net.Conn)]. *)
Definition httpRequestParser (conn : bufio.Conn) : option (served bufio.Conn) :=
  readLoop (S (String.length (bufio.streamOf (bufio.arriving conn)))) conn "" [].

End LinePrinter.

(** ** The vocabulary of the statements about the other programs *)

(** What the reads of a connection into a buffer of [n] bytes deliver, one
    after the other, until a read fails. *)
Fixpoint readsOf (fuel n : nat) (conn : bufio.Conn) : list string :=
  match fuel with
  | 0 => []
  | S fuel' =>
    match net.Read conn n with
    | ((data, None), conn') => data :: readsOf fuel' n conn'
    | _ => []
    end
  end.

Definition reads (n : nat) (conn : bufio.Conn) : list string :=
  readsOf (S (String.length (bufio.streamOf (bufio.arriving conn)))) n conn.

(** The reads before the first one that is the one byte "q". *)
Fixpoint beforeQuit (rs : list string) : list string :=
  match rs with
  | [] => []
  | r :: rs' => if (r =? "q")%string then [] else r :: beforeQuit rs'
  end.

(** Whether one of the reads is the one byte "q". *)
Definition quits (rs : list string) : bool :=
  existsb (fun r => (r =? "q")%string) rs.

Definition quitPiece : bufio.fragment := {| bufio.first := "q"; bufio.more := "" |}.

(** A piece that the echo server writes back as it is. *)
Definition echoed (f : bufio.fragment) : Prop :=
  String.length (bufio.bytes f) <= 4096 /\ bufio.bytes f <> "q".

(** A message: text without a line feed, other than "quit". *)
Definition message (l : string) : Prop := bufio.cutAfter l LF = None /\ l <> "quit".

Definition answer (l : string) : string := "Echo: " ++ l ++ String LF "".

Definition terminated (l : string) : string := l ++ String LF "".

(** The header that a header line gives. *)
Definition headerOf (l : string) : Header :=
  match strings.Cut l ":" with
  | Some (name, value) => {| Name := strings.TrimSpace name; Value := strings.TrimSpace value |}
  | None => {| Name := ""; Value := "" |}
  end.

(** The [i]-th token of a request line, trimmed. *)
Definition token (i : nat) (l : string) : string :=
  strings.TrimSpace (nth i (strings.Split l " ") "").

(** The request that the lines of a header block spell. *)
Definition requestOf (ls : list string) : HeaderParser.HTTPReq :=
  match ls with
  | [] => HeaderParser.emptyReq
  | l :: hs =>
    {| HeaderParser.Method := token 0 l; HeaderParser.URI := token 1 l;
       HeaderParser.Version := token 2 l; HeaderParser.Headers := map headerOf hs |}
  end.

(** A header with its name in lower case. *)
Definition lowerName {U : UnicodeTables} (h : Header) : Header :=
  {| Name := strings.ToLower (Name h); Value := Value h |}.

(** The locals of the two parsers agree, the name of the headers apart. *)
Definition agree {U : UnicodeTables} (v : locals) (w : HeaderParser.locals) : Prop :=
  Method (httpReq v) = HeaderParser.Method (HeaderParser.httpReq w)
  /\ URI (httpReq v) = HeaderParser.URI (HeaderParser.httpReq w)
  /\ Version (httpReq v) = HeaderParser.Version (HeaderParser.httpReq w)
  /\ headerArr v = map lowerName (HeaderParser.headerArr w)
  /\ headerBytes v = HeaderParser.totalBytes w
  /\ count v = HeaderParser.count w.

(** The first line of a text that ends in CR LF, with what [line] holds
    already before it, and the text after; [None] when no line ends. *)
Fixpoint cutCRLF (s line : string) : option (string * string) :=
  match s with
  | "" => None
  | String c rest =>
    if endsCRLF (line ++ String c "") then Some (line ++ String c "", rest)
    else cutCRLF rest (line ++ String c "")
  end.

(** A line as the byte loops cut it: it ends in CR LF, and not before. *)
Definition crlfLine (l : string) : Prop := cutCRLF l "" = Some (l, "").

(** What the scan does with a line that has just ended. *)
Definition onLine (st : ConnParser.scan) (line : string) : ret ConnParser.scan :=
  if (ConnParser.count st =? 0)%Z then
    match strings.Split line " " with
    | m :: u :: ver :: _ =>
      Ret {| ConnParser.httpReq :=
               {| HeaderParser.Method := strings.TrimSpace m;
                  HeaderParser.URI := strings.TrimSpace u;
                  HeaderParser.Version := strings.TrimSpace ver;
                  HeaderParser.Headers := HeaderParser.Headers (ConnParser.httpReq st) |};
             ConnParser.headerArr := ConnParser.headerArr st; ConnParser.line := "";
             ConnParser.count := (ConnParser.count st + 1)%Z |} None
    | _ => Panics "index out of range"
    end
  else
    match strings.SplitN line ":" 2 with
    | name :: value :: _ =>
      Ret {| ConnParser.httpReq := ConnParser.httpReq st;
             ConnParser.headerArr :=
               (ConnParser.headerArr st
                ++ [{| Name := strings.TrimSpace name; Value := strings.TrimSpace value |}])%list;
             ConnParser.line := ""; ConnParser.count := (ConnParser.count st + 1)%Z |} None
    | _ => Panics "index out of range"
    end.

(** What the printer prints for a line that has ended. *)
Definition announce (l : string) : list string :=
  ["End of line reached" ++ String LF ""; l].

(** ** Connections and requests for the other programs *)

(** A piece of the bytes [String c s]. *)
Definition piece (c : ascii) (s : string) : bufio.fragment :=
  {| bufio.first := c; bufio.more := s |}.

(** The head of the first of [twoRequests], line by line, and of the second. *)
Definition headA : list string := ["GET /a HTTP/1.1" ++ CRLF; "Host: x" ++ CRLF].

Definition headB : list string :=
  ["GET /b HTTP/1.1" ++ CRLF; "Host: x" ++ CRLF; "Connection: close" ++ CRLF].

(** The reader after the parser with the body has taken the first of
    [twoRequests]. *)
Definition afterA : bufio.Reader :=
  {| bufio.pending := "Host: x" ++ CRLF ++ "Connection: close" ++ CRLF ++ CRLF;
     bufio.rd := delivered [] |}.

(** A POST request with a body after the line that the parser drops. *)
Definition postThree : string :=
  "POST /u HTTP/1.1" ++ CRLF ++ "Content-Length: 3" ++ CRLF ++ CRLF
  ++ "x" ++ String LF "hello".

Definition afterPost : bufio.Reader :=
  {| bufio.pending := "hello"; bufio.rd := delivered [] |}.

Definition postRequest : HTTPReq :=
  {| Method := "POST"; URI := "/u"; Version := "HTTP/1.1";
     Headers := [{| Name := "content-length"; Value := "3" |}];
     Body := Some {| buf := afterPost; remaining := 3 |} |}.

(** The lines of a request after one read, and after a second one. *)
Definition linesOnce : list string := ["GET /a HTTP/1.1" ++ CRLF; CRLF].

Definition linesTwice : list string := ["GET /a HTTP/1.1" ++ CRLF; CRLF; "abc" ++ CRLF].

(** A request with a body of 8192 bytes, 8229 bytes in all. *)
Definition withBody : string :=
  "GET /a HTTP/1.1" ++ CRLF ++ "Host: x" ++ CRLF ++ "Accept: y" ++ CRLF ++ CRLF
  ++ repeatString "a" 4096 ++ repeatString "a" 4096.

(** 8193 bytes without an empty line, in three pieces. *)
Definition tooLong : bufio.Conn :=
  delivered [repeatString "a" 4096; repeatString "a" 4096; "a"].

(** * Theory *)

(** ** Strings *)

Lemma takeString_length (n : nat) (s : string) : String.length (takeString n s) <= n.
Proof.
  revert s; induction n as [|n IH]; intros [|c s]; simpl; try lia.
  specialize (IH s); lia.
Qed.

Lemma append_nil_r (s : string) : s ++ "" = s.
Proof. induction s as [|c s IH]; simpl; [reflexivity | now rewrite IH]. Qed.

Lemma append_assoc (a b c : string) : (a ++ b) ++ c = a ++ (b ++ c).
Proof. induction a as [|x a IH]; simpl; [reflexivity | now rewrite IH]. Qed.

Lemma length_append (a b : string) :
  String.length (a ++ b) = String.length a + String.length b.
Proof. induction a as [|x a IH]; simpl; [reflexivity | now rewrite IH]. Qed.

Lemma take_drop (n : nat) (s : string) : takeString n s ++ dropString n s = s.
Proof.
  revert s; induction n as [|n IH]; intros [|c s]; simpl; try reflexivity.
  now rewrite IH.
Qed.

Lemma takeString_append (n : nat) (a b : string) :
  takeString (String.length a + n) (a ++ b) = a ++ takeString n b.
Proof. induction a as [|x a IH]; simpl; [reflexivity | now rewrite IH]. Qed.

Lemma dropString_append (n : nat) (a b : string) :
  dropString (String.length a + n) (a ++ b) = dropString n b.
Proof. induction a as [|x a IH]; simpl; [reflexivity | exact IH]. Qed.

Lemma streamOf_nil (fs : list bufio.fragment) : bufio.streamOf fs = "" -> fs = [].
Proof. destruct fs; simpl; [reflexivity | discriminate]. Qed.

(** ** Lines *)

(** The first line of a text and the rest, as [ReadString] cuts them. *)
Lemma cutAfter_append (p q : string) (d : ascii) :
  bufio.cutAfter (p ++ q) d =
  match bufio.cutAfter p d with
  | Some (line, rest) => Some (line, rest ++ q)
  | None =>
    match bufio.cutAfter q d with
    | Some (line, rest) => Some (p ++ line, rest)
    | None => None
    end
  end.
Proof.
  induction p as [|c p IH]; simpl.
  - destruct (bufio.cutAfter q d) as [[line rest]|]; reflexivity.
  - destruct (c =? d)%char; [reflexivity|].
    rewrite IH.
    destruct (bufio.cutAfter p d) as [[line rest]|]; [reflexivity|].
    destruct (bufio.cutAfter q d) as [[line rest]|]; reflexivity.
Qed.

Lemma cutAfter_Some (s line rest : string) (d : ascii) :
  bufio.cutAfter s d = Some (line, rest) ->
  s = line ++ rest /\ 0 < String.length line.
Proof.
  revert line rest; induction s as [|c s IH]; simpl; intros line rest Hc; [discriminate|].
  destruct (c =? d)%char.
  - injection Hc as <- <-. simpl. split; [reflexivity | lia].
  - destruct (bufio.cutAfter s d) as [[l r]|]; [|discriminate].
    injection Hc as <- <-. destruct (IH l r eq_refl) as [-> _].
    simpl. split; [reflexivity | lia].
Qed.

Lemma readUntil_firstLine (d : ascii) (fs : list bufio.fragment) (e : error) (have : string) :
  fst (bufio.readUntil d have fs e) = fst (firstLine (have ++ bufio.streamOf fs) d e)
  /\ bufio.unread (snd (bufio.readUntil d have fs e))
     = snd (firstLine (have ++ bufio.streamOf fs) d e)
  /\ bufio.closing (bufio.rd (snd (bufio.readUntil d have fs e))) = e.
Proof.
  revert have; induction fs as [|f fs IH]; intros have; simpl bufio.readUntil; unfold firstLine.
  - simpl bufio.streamOf. rewrite append_nil_r.
    destruct (bufio.cutAfter have d) as [[line rest]|]; simpl; unfold bufio.unread; simpl;
      rewrite ?append_nil_r; auto.
  - rewrite cutAfter_append.
    destruct (bufio.cutAfter have d) as [[line rest]|] eqn:E.
    + simpl. unfold bufio.unread. simpl. auto.
    + specialize (IH (have ++ bufio.bytes f)).
      unfold firstLine in IH. simpl bufio.streamOf.
      rewrite append_assoc, cutAfter_append, E in IH. exact IH.
Qed.

(** [ReadString] sees the unread bytes only, not how they are split. *)
Lemma ReadString_firstLine (b : bufio.Reader) (d : ascii) :
  fst (bufio.ReadString b d) = fst (firstLine (bufio.unread b) d (bufio.closing (bufio.rd b)))
  /\ bufio.unread (snd (bufio.ReadString b d))
     = snd (firstLine (bufio.unread b) d (bufio.closing (bufio.rd b)))
  /\ bufio.closing (bufio.rd (snd (bufio.ReadString b d))) = bufio.closing (bufio.rd b).
Proof. apply readUntil_firstLine. Qed.

(** ** Parsing sees the unread bytes, not their fragments *)

Lemma flat_eq (b1 b2 : bufio.Reader) :
  bufio.unread b1 = bufio.unread b2 ->
  bufio.closing (bufio.rd b1) = bufio.closing (bufio.rd b2) ->
  flat b1 = flat b2.
Proof. unfold flat; intros -> ->; reflexivity. Qed.

Lemma flat_inv (b1 b2 : bufio.Reader) :
  flat b1 = flat b2 ->
  bufio.unread b1 = bufio.unread b2
  /\ bufio.closing (bufio.rd b1) = bufio.closing (bufio.rd b2).
Proof. unfold flat; intros H; injection H; auto. Qed.

Section Parsing.
Context {U : UnicodeTables}.

Lemma iteration_error (v : locals) (r : bufio.Reader) (bytes : string) (e : error) :
  iteration v r bytes (Some e) = Return (Ret emptyReq (Some (Wrapf "Something went wrong %w" e))).
Proof. reflexivity. Qed.

(** Only the reader stored in [Body] tells two iterations on the same line
    apart. *)
Lemma iteration_flat (v : locals) (r1 r2 : bufio.Reader) (bytes : string) (err : option error) :
  flat r1 = flat r2 ->
  flatFlow (iteration v r1 bytes err) = flatFlow (iteration v r2 bytes err).
Proof.
  intros Hr. unfold iteration.
  destruct err as [e|]; [reflexivity|].
  destruct (negb (isHeaderComplete v)).
  - destruct (8192 <? _)%Z; [reflexivity|].
    destruct (bytes =? CRLF)%string; [reflexivity|].
    destruct (count v =? 0)%Z.
    + destruct (strings.Split bytes " ") as [|m [|u [|ver l]]]; reflexivity.
    + destruct (strings.SplitN bytes ":" 2) as [|name [|value l]]; reflexivity.
  - destruct (_ || _); [reflexivity|].
    destruct (scanContentLength _ _) as [n [e|]]; [reflexivity|].
    simpl. unfold flatReq, flatBody. simpl. now rewrite Hr.
Qed.

(** A line has been taken off the stream whenever the loop goes round. *)
Lemma ReadString_shortens (b : bufio.Reader) (bytes : string) (b' : bufio.Reader) :
  bufio.ReadString b LF = ((bytes, None), b') ->
  bufio.unread b = bytes ++ bufio.unread b' /\ 0 < String.length bytes.
Proof.
  intros HR. destruct (ReadString_firstLine b LF) as (H1 & H2 & _).
  rewrite HR in H1, H2. simpl in H1, H2. unfold firstLine in H1, H2.
  destruct (bufio.cutAfter (bufio.unread b) LF) as [[line rest]|] eqn:E; simpl in H1, H2.
  - injection H1 as ->. subst rest. eapply cutAfter_Some; exact E.
  - discriminate.
Qed.

Lemma ReadString_flat (b1 b2 : bufio.Reader) :
  flat b1 = flat b2 ->
  fst (bufio.ReadString b1 LF) = fst (bufio.ReadString b2 LF)
  /\ flat (snd (bufio.ReadString b1 LF)) = flat (snd (bufio.ReadString b2 LF)).
Proof.
  intros Hf. destruct (flat_inv _ _ Hf) as [Hu Hc].
  destruct (ReadString_firstLine b1 LF) as (A1 & A2 & A3).
  destruct (ReadString_firstLine b2 LF) as (B1 & B2 & B3).
  split.
  - rewrite A1, B1, Hu, Hc. reflexivity.
  - apply flat_eq; [rewrite A2, B2, Hu, Hc | rewrite A3, B3, Hc]; reflexivity.
Qed.

(** With fuel beyond the number of unread bytes the loop leaves, and what it
    returns depends on the unread bytes alone. *)
Lemma parseLoop_flat (f1 : nat) :
  forall (f2 : nat) (v : locals) (b1 b2 : bufio.Reader),
    flat b1 = flat b2 ->
    String.length (bufio.unread b1) < f1 ->
    String.length (bufio.unread b2) < f2 ->
    exists res, parseLoop f1 v b1 = Some res
                /\ flatResult (parseLoop f1 v b1) = flatResult (parseLoop f2 v b2).
Proof.
  induction f1 as [|f1 IH]; intros f2 v b1 b2 Hf H1 H2; [lia|].
  destruct f2 as [|f2]; [lia|].
  simpl parseLoop.
  destruct (ReadString_flat b1 b2 Hf) as [Hl Hb].
  destruct (bufio.ReadString b1 LF) as [[bytes1 err1] b1'] eqn:E1.
  destruct (bufio.ReadString b2 LF) as [[bytes2 err2] b2'] eqn:E2.
  simpl in Hl, Hb. injection Hl as <- <-.
  pose proof (iteration_flat v b1' b2' bytes1 err1 Hb) as Hi.
  destruct (iteration v b1' bytes1 err1) as [v1|o1] eqn:I1;
    destruct (iteration v b2' bytes1 err1) as [v2|o2] eqn:I2; simpl in Hi; try discriminate.
  - injection Hi as <-.
    destruct err1 as [e|]; [rewrite iteration_error in I1; discriminate|].
    destruct (ReadString_shortens _ _ _ E1) as [U1 L1].
    destruct (ReadString_shortens _ _ _ E2) as [U2 L2].
    rewrite U1, length_append in H1. rewrite U2, length_append in H2.
    apply IH; [exact Hb | lia | lia].
  - injection Hi as Hi. eexists; split; [reflexivity|]. simpl. now rewrite Hi, Hb.
Qed.

(** The call returns or panics on every reader: the fuel never runs out. *)
Lemma parseHTTPRequest_returns (b : bufio.Reader) :
  exists o b', parseHTTPRequest b = Some (o, b').
Proof.
  unfold parseHTTPRequest.
  destruct (parseLoop_flat (S (String.length (bufio.unread b)))
              (S (String.length (bufio.unread b))) initially b b eq_refl) as ([o b'] & H & _);
    [lia | lia |].
  now exists o, b'.
Qed.

(** Two readers with the same unread bytes and the same end give the same
    result. *)
Lemma parseHTTPRequest_flat (b1 b2 : bufio.Reader) :
  flat b1 = flat b2 ->
  flatResult (parseHTTPRequest b1) = flatResult (parseHTTPRequest b2).
Proof.
  intros Hf. unfold parseHTTPRequest.
  destruct (parseLoop_flat (S (String.length (bufio.unread b1)))
              (S (String.length (bufio.unread b2))) initially b1 b2 Hf) as (_ & _ & H);
    [lia | lia | exact H].
Qed.

End Parsing.

(** ** Reading a body from a buffered connection *)

Lemma bufio_Read_empty (b : bufio.Reader) (n : nat) :
  0 < n -> bufio.unread b = "" ->
  bufio.Read b n = (("", Some (bufio.closing (bufio.rd b))), b).
Proof.
  intros Hn Hu. unfold bufio.unread in Hu. unfold bufio.Read.
  destruct n as [|n]; [lia|].
  destruct (bufio.pending b) as [|c s]; [|discriminate].
  simpl in Hu. now rewrite (streamOf_nil _ Hu).
Qed.

(** A read with room for a byte hands out the next bytes of the stream, one
    at least, whenever there are any. *)
Lemma bufio_Read_next (b : bufio.Reader) (n : nat) :
  0 < n -> bufio.unread b <> "" ->
  exists data b',
    bufio.Read b n = ((data, None), b')
    /\ 0 < String.length data <= n
    /\ bufio.unread b = data ++ bufio.unread b'
    /\ bufio.closing (bufio.rd b') = bufio.closing (bufio.rd b).
Proof.
  intros Hn Hu. unfold bufio.unread in *. unfold bufio.Read.
  destruct n as [|n]; [lia|].
  destruct (bufio.pending b) as [|c s] eqn:Ep.
  - destruct (bufio.arriving (bufio.rd b)) as [|f fs] eqn:Ea; [now elim Hu|].
    eexists _, _; split; [reflexivity|]. simpl.
    pose proof (takeString_length n (bufio.more f)).
    repeat split; try lia.
    now rewrite <- append_assoc, take_drop.
  - eexists _, _; split; [reflexivity|]. simpl.
    pose proof (takeString_length n s).
    repeat split; try lia.
    now rewrite <- append_assoc, take_drop.
Qed.

Lemma prepend_append (a b : string) (o : ret string) :
  prepend (a ++ b) o = prepend a (prepend b o).
Proof. destruct o; simpl; [now rewrite append_assoc | reflexivity]. Qed.

Lemma bodyOf_next (data s : string) (remaining : Z) (e : error) :
  (Z.of_nat (String.length data) <= remaining)%Z ->
  bodyOf (data ++ s) remaining e
  = prepend data (bodyOf s (remaining - Z.of_nat (String.length data)) e).
Proof.
  intros Hk. unfold bodyOf. rewrite length_append, Nat2Z.inj_add.
  destruct (remaining <? 0)%Z eqn:E0; [apply Z.ltb_lt in E0; lia|].
  destruct (remaining - Z.of_nat (String.length data) <? 0)%Z eqn:E1;
    [apply Z.ltb_lt in E1; lia|].
  destruct (remaining <=? _)%Z eqn:E2; destruct (remaining - _ <=? _)%Z eqn:E3;
    try (apply Z.leb_le in E2); try (apply Z.leb_le in E3);
    try (apply Z.leb_gt in E2); try (apply Z.leb_gt in E3); try lia; simpl; [|reflexivity].
  replace (Z.to_nat remaining)
    with (String.length data + Z.to_nat (remaining - Z.of_nat (String.length data))) by lia.
  now rewrite takeString_append.
Qed.

Lemma readAllFrom_bufio (n : nat) (Hn : 0 < n) (fuel : nat) :
  forall (r : LimitedBodyReader bufio.Reader) (got : string),
    (0 <= remaining r)%Z ->
    Z.to_nat (remaining r) < fuel ->
    exists r',
      readAllFrom fuel n r got
      = Some (prepend got (bodyOf (bufio.unread (buf r)) (remaining r)
                                  (bufio.closing (bufio.rd (buf r)))), r')
      /\ bufio.unread (buf r') = dropString (Z.to_nat (remaining r)) (bufio.unread (buf r)).
Proof.
  induction fuel as [|fuel IH]; intros r got Hr Hf; [lia|].
  simpl readAllFrom. unfold LimitedBodyReader_Read.
  destruct (remaining r =? 0)%Z eqn:E0.
  - apply Z.eqb_eq in E0. exists r. rewrite E0. unfold bodyOf. simpl.
    destruct (0 <=? _)%Z eqn:E1; [auto | apply Z.leb_gt in E1; lia].
  - apply Z.eqb_neq in E0.
    destruct (Z.min (Z.of_nat n) (remaining r) <? 0)%Z eqn:E1; [apply Z.ltb_lt in E1; lia|].
    assert (Hw : 0 < Z.to_nat (Z.min (Z.of_nat n) (remaining r))) by lia.
    change (@io.Read bufio.Reader bufio_Reader) with bufio.Read.
    destruct (bufio.unread (buf r)) as [|c s] eqn:Eu.
    + rewrite (bufio_Read_empty _ _ Hw Eu).
      eexists; split.
      * unfold bodyOf.
        destruct (remaining r <? 0)%Z eqn:E2; [apply Z.ltb_lt in E2; lia|].
        destruct (remaining r <=? _)%Z eqn:E3; [apply Z.leb_le in E3; simpl in E3; lia|].
        reflexivity.
      * simpl. rewrite Eu. now destruct (Z.to_nat (remaining r)).
    + destruct (bufio_Read_next (buf r) _ Hw) as (data & b' & HR & Hl & Hu & Hc);
        [rewrite Eu; discriminate|].
      rewrite HR.
      destruct (IH {| buf := b'; remaining := (remaining r - Z.of_nat (String.length data))%Z |}
                   (got ++ data)) as (r' & Hres & Hun); simpl; [lia | lia |].
      exists r'. rewrite Hres. simpl in *. rewrite Hc, <- Eu, Hu.
      rewrite bodyOf_next by lia. rewrite prepend_append. split; [reflexivity|].
      rewrite Hun.
      replace (Z.to_nat (remaining r))
        with (String.length data + Z.to_nat (remaining r - Z.of_nat (String.length data))) by lia.
      now rewrite dropString_append.
Qed.

(** The bytes [ReadAll] delivers are the first [remaining] bytes of the
    unread stream, whatever the size of the buffer and the fragments; a
    stream that ends too early gives what there is and the wrapped error of
    the connection; a negative [remaining] panics. *)
Lemma ReadAll_bufio (n : nat) (r : LimitedBodyReader bufio.Reader) :
  0 < n ->
  exists r',
    ReadAll n r
    = Some (bodyOf (bufio.unread (buf r)) (remaining r) (bufio.closing (bufio.rd (buf r))), r').
Proof.
  intros Hn. unfold ReadAll.
  destruct (remaining r <? 0)%Z eqn:E.
  - apply Z.ltb_lt in E. exists r.
    simpl. unfold LimitedBodyReader_Read, bodyOf.
    destruct (remaining r =? 0)%Z eqn:E0; [apply Z.eqb_eq in E0; lia|].
    destruct (Z.min _ _ <? 0)%Z eqn:E1; [|apply Z.ltb_ge in E1; lia].
    apply Z.ltb_lt in E. now rewrite E.
  - apply Z.ltb_ge in E.
    destruct (readAllFrom_bufio n Hn (S (Z.to_nat (remaining r))) r "" E) as (r' & H & _); [lia|].
    exists r'. rewrite H. now destruct (bodyOf _ _ _).
Qed.

(** ** What a handler sees *)

Lemma handled_flat (n : nat) (res1 res2 : option (ret HTTPReq * bufio.Reader)) :
  0 < n ->
  flatResult res1 = flatResult res2 ->
  (exists x, res1 = Some x) ->
  exists o, handled n res1 = Some o /\ handled n res2 = Some o.
Proof.
  intros Hn Hf [[o1 b1] ->].
  destruct res2 as [[o2 b2]|]; [|discriminate].
  assert (Ho : flatRet o1 = flatRet o2) by (simpl in Hf; congruence).
  clear Hf.
  destruct o1 as [req1 e1|w1]; destruct o2 as [req2 e2|w2]; simpl in Ho; try discriminate.
  - assert (He : e1 = e2) by congruence. subst e2.
    assert (Hreq : flatReq req1 = flatReq req2) by congruence. clear Ho.
    destruct req1 as [m1 u1 v1 h1 [r1|]]; destruct req2 as [m2 u2 v2 h2 [r2|]];
      unfold flatReq in Hreq; simpl in Hreq; try discriminate.
    + assert (Hr : flatBody r1 = flatBody r2) by congruence.
      assert (Hbuf : flat (buf r1) = flat (buf r2)) by (unfold flatBody in Hr; congruence).
      assert (Hrem : remaining r1 = remaining r2) by (unfold flatBody in Hr; congruence).
      destruct (flat_inv _ _ Hbuf) as [Hu Hc].
      destruct (ReadAll_bufio n r1 Hn) as (r1' & H1).
      destruct (ReadAll_bufio n r2 Hn) as (r2' & H2).
      simpl. rewrite H1, H2, Hu, Hc, Hrem.
      eexists; split; [reflexivity | congruence].
    + simpl. eexists; split; [reflexivity | congruence].
  - simpl. eexists; split; [reflexivity | congruence].
Qed.

(** ** The header block, line by line *)

Lemma ReadString_line (b : bufio.Reader) (l rest : string) :
  completeLine l ->
  bufio.unread b = l ++ rest ->
  exists b',
    bufio.ReadString b LF = ((l, None), b')
    /\ bufio.unread b' = rest
    /\ bufio.closing (bufio.rd b') = bufio.closing (bufio.rd b).
Proof.
  intros Hl Hu. destruct (ReadString_firstLine b LF) as (H1 & H2 & H3).
  unfold firstLine in H1, H2. rewrite Hu, cutAfter_append, Hl in H1, H2. simpl in H1, H2.
  destruct (bufio.ReadString b LF) as [[x e] b']. simpl in *.
  exists b'. injection H1 as -> ->. auto.
Qed.

Lemma completeLine_length (l : string) : completeLine l -> 0 < String.length l.
Proof. intros H. now destruct (cutAfter_Some _ _ _ _ H). Qed.

Section HeaderBlock.
Context {U : UnicodeTables}.

Lemma iteration_requestLine (v : locals) (r : bufio.Reader) (l : string) :
  isHeaderComplete v = false -> count v = 0%Z -> threeTokens l = true ->
  (headerBytes v + Z.of_nat (String.length l) <= 8192)%Z ->
  exists v', iteration v r l None = Continue v'
             /\ isHeaderComplete v' = false /\ count v' = 1%Z
             /\ headerBytes v' = (headerBytes v + Z.of_nat (String.length l))%Z.
Proof.
  intros Hc Hn Ht Hb. unfold iteration. rewrite Hc, Hn. simpl negb. cbv iota.
  destruct (8192 <? _)%Z eqn:E; [apply Z.ltb_lt in E; lia|].
  destruct (l =? CRLF)%string eqn:El; [apply String.eqb_eq in El; subst l; discriminate|].
  simpl Z.eqb. cbv iota. unfold threeTokens in Ht.
  destruct (strings.Split l " ") as [|m [|u [|ver ts]]]; try discriminate.
  eexists; split; [reflexivity|]. simpl. auto.
Qed.

Lemma iteration_headerLine (v : locals) (r : bufio.Reader) (l : string) :
  isHeaderComplete v = false -> (0 < count v)%Z -> hasColon l = true ->
  (headerBytes v + Z.of_nat (String.length l) <= 8192)%Z ->
  exists v', iteration v r l None = Continue v'
             /\ isHeaderComplete v' = false /\ count v' = (count v + 1)%Z
             /\ headerBytes v' = (headerBytes v + Z.of_nat (String.length l))%Z.
Proof.
  intros Hc Hn Ht Hb. unfold iteration. rewrite Hc. simpl negb. cbv iota.
  destruct (8192 <? _)%Z eqn:E; [apply Z.ltb_lt in E; lia|].
  destruct (l =? CRLF)%string eqn:El; [apply String.eqb_eq in El; subst l; discriminate|].
  destruct (count v =? 0)%Z eqn:E0; [apply Z.eqb_eq in E0; lia|].
  unfold hasColon in Ht. unfold strings.SplitN.
  destruct (strings.Cut l ":") as [[before after]|]; [|discriminate].
  eexists; split; [reflexivity|]. simpl. auto.
Qed.

Lemma iteration_tooLarge (v : locals) (r : bufio.Reader) (l : string) :
  isHeaderComplete v = false ->
  (8192 < headerBytes v + Z.of_nat (String.length l))%Z ->
  iteration v r l None = Return (Ret emptyReq (Some (Errorf "Buffer is too large"))).
Proof.
  intros Hc Hb. unfold iteration. rewrite Hc. simpl negb. cbv iota.
  destruct (8192 <? _)%Z eqn:E; [reflexivity | apply Z.ltb_ge in E; lia].
Qed.

(** The loop on a stream that starts with well-formed lines [ls] within the
    cap and then a line [l] that crosses it. *)
Lemma parseLoop_cap (ls : list string) :
  forall (v : locals) (b : bufio.Reader) (fuel : nat) (l rest : string),
    isHeaderComplete v = false -> (0 <= count v)%Z ->
    Forall completeLine ls -> completeLine l ->
    headLines (count v =? 0)%Z ls = true ->
    (headerBytes v + Z.of_nat (String.length (joined ls)) <= 8192)%Z ->
    (8192 < headerBytes v + Z.of_nat (String.length (joined ls)) + Z.of_nat (String.length l))%Z ->
    bufio.unread b = joined ls ++ l ++ rest ->
    String.length (bufio.unread b) < fuel ->
    exists b',
      parseLoop fuel v b = Some (Ret emptyReq (Some (Errorf "Buffer is too large")), b')
      /\ bufio.unread b' = rest.
Proof.
  induction ls as [|l1 ls IH]; intros v b fuel l rest Hc Hn Hls Hl Hw Hle Hgt Hu Hf;
    (destruct fuel as [|fuel]; [lia|]); simpl parseLoop.
  - simpl in Hu, Hle, Hgt.
    destruct (ReadString_line b l rest Hl Hu) as (b' & HR & Hu' & _).
    rewrite HR, iteration_tooLarge by (auto; lia). now exists b'.
  - simpl in Hu, Hle, Hgt, Hw. rewrite append_assoc in Hu. rewrite length_append in Hle, Hgt.
    apply andb_prop in Hw. destruct Hw as [Hw1 Hw2].
    inversion Hls as [|? ? Hl1 Hls']; subst.
    destruct (ReadString_line b l1 _ Hl1 Hu) as (b' & HR & Hu' & _).
    pose proof (completeLine_length _ Hl1) as Hpos.
    rewrite HR.
    assert (Hv : exists v', iteration v b' l1 None = Continue v'
                            /\ isHeaderComplete v' = false /\ (0 < count v')%Z
                            /\ headerBytes v' = (headerBytes v + Z.of_nat (String.length l1))%Z).
    { destruct (count v =? 0)%Z eqn:E0.
      - apply Z.eqb_eq in E0.
        destruct (iteration_requestLine v b' l1 Hc E0 Hw1) as (v' & ? & ? & ? & ?); [lia|].
        exists v'. repeat split; auto; lia.
      - apply Z.eqb_neq in E0.
        destruct (iteration_headerLine v b' l1 Hc) as (v' & ? & ? & ? & ?); auto; try lia.
        exists v'. repeat split; auto; lia. }
    destruct Hv as (v' & Hi & Hc' & Hn' & Hb'). rewrite Hi.
    apply (IH v' b' fuel l rest); auto; try lia.
    + destruct (count v' =? 0)%Z eqn:E; [apply Z.eqb_eq in E; lia | exact Hw2].
    + rewrite Hu, length_append in Hf. rewrite Hu'. lia.
Qed.

End HeaderBlock.

(** ** The choice of the body reader *)

(** Headers of other names, [transfer-encoding] among them, are passed over. *)
Lemma scanContentLength_filter (hs : list Header) (c : Z) :
  scanContentLength (filter isContentLength hs) c = scanContentLength hs c.
Proof.
  revert c; induction hs as [|h hs IH]; intros c; simpl; [reflexivity|].
  unfold isContentLength at 1.
  destruct (Name h =? "content-length")%string eqn:E; simpl.
  - rewrite E. destruct (strconv.Atoi (Value h)) as [v [e|]]; [reflexivity | apply IH].
  - apply IH.
Qed.

Lemma last_cons {A : Type} (l : list A) :
  forall a d : A, last (a :: l) d = last l a.
Proof.
  induction l as [|b l IH]; intros a d; [reflexivity|].
  change (last (a :: b :: l) d) with (last (b :: l) d).
  now rewrite (IH b d), (IH b a).
Qed.

(** The loop over the headers leaves the last [content-length] standing. *)
Lemma scanContentLength_last (hs : list Header) :
  forall c n : Z,
    scanContentLength hs c = (n, None) ->
    n = last (map (fun h => fst (strconv.Atoi (Value h))) (filter isContentLength hs)) c.
Proof.
  induction hs as [|h hs IH]; intros c n; simpl.
  - now intros [= <-].
  - unfold isContentLength at 1.
    destruct (Name h =? "content-length")%string; [|apply IH].
    destruct (strconv.Atoi (Value h)) as [v [e|]] eqn:Ea; [discriminate|].
    intros Hs. cbn [map]. rewrite last_cons, Ea. cbn [fst]. now apply IH.
Qed.

Section BodyChoice.
Context {U : UnicodeTables}.

Lemma iteration_fresh (v v' : locals) (r : bufio.Reader) (bytes : string) (err : option error) :
  fresh v -> iteration v r bytes err = Continue v' -> fresh v'.
Proof.
  intros [Hc Hb]. unfold iteration.
  destruct err as [e|]; [discriminate|].
  destruct (negb (isHeaderComplete v)).
  - destruct (8192 <? _)%Z; [discriminate|].
    destruct (bytes =? CRLF)%string; [intros [= <-]; split; assumption|].
    destruct (count v =? 0)%Z.
    + destruct (strings.Split bytes " ") as [|m [|u [|ver l]]]; try discriminate.
      intros [= <-]; split; assumption.
    + destruct (strings.SplitN bytes ":" 2) as [|name [|value l]]; try discriminate.
      intros [= <-]; split; assumption.
  - destruct (_ || _); [discriminate|].
    destruct (scanContentLength _ _) as [n [e|]]; discriminate.
Qed.

Lemma iteration_body (v : locals) (r : bufio.Reader) (bytes : string) (err : option error)
    (req : HTTPReq) :
  fresh v -> iteration v r bytes err = Return (Ret req None) ->
  if ((Method req =? "GET") || (Method req =? "HEAD"))%string
  then Body req = None
  else exists n, scanContentLength (Headers req) 0 = (n, None)
                 /\ Body req = Some {| buf := r; remaining := n |}.
Proof.
  intros [Hc Hb]. unfold iteration.
  destruct err as [e|]; [discriminate|].
  destruct (negb (isHeaderComplete v)).
  - destruct (8192 <? _)%Z; [discriminate|].
    destruct (bytes =? CRLF)%string; [discriminate|].
    destruct (count v =? 0)%Z.
    + destruct (strings.Split bytes " ") as [|m [|u [|ver l]]]; discriminate.
    + destruct (strings.SplitN bytes ":" 2) as [|name [|value l]]; discriminate.
  - cbv zeta. simpl Method.
    destruct (_ || _) eqn:Em.
    + intros [= <-]. simpl. rewrite Em. exact Hb.
    + rewrite Hc. destruct (scanContentLength (headerArr v) 0) as [n [e|]] eqn:Es; [discriminate|].
      intros [= <-]. simpl. rewrite Em. exists n. auto.
Qed.

Lemma parseLoop_body (fuel : nat) :
  forall (v : locals) (b b' : bufio.Reader) (req : HTTPReq),
    fresh v -> parseLoop fuel v b = Some (Ret req None, b') ->
    if ((Method req =? "GET") || (Method req =? "HEAD"))%string
    then Body req = None
    else exists n, scanContentLength (Headers req) 0 = (n, None)
                   /\ Body req = Some {| buf := b'; remaining := n |}.
Proof.
  induction fuel as [|fuel IH]; intros v b b' req Hv; simpl; [discriminate|].
  destruct (bufio.ReadString b LF) as [[bytes err] b1].
  destruct (iteration v b1 bytes err) as [v'|o] eqn:Ei.
  - apply IH. eapply iteration_fresh; eassumption.
  - intros [= -> ->]. eapply iteration_body; eassumption.
Qed.

(** The body of a request that the parser returns without error. *)
Lemma parsed_body (b b' : bufio.Reader) (req : HTTPReq) :
  parseHTTPRequest b = Some (Ret req None, b') ->
  if ((Method req =? "GET") || (Method req =? "HEAD"))%string
  then Body req = None
  else exists n, scanContentLength (filter isContentLength (Headers req)) 0 = (n, None)
                 /\ Body req = Some {| buf := b'; remaining := n |}.
Proof.
  intros Hp. unfold parseHTTPRequest in Hp.
  apply parseLoop_body in Hp; [|split; reflexivity].
  destruct (_ || _); [exact Hp|].
  destruct Hp as (n & Hs & Hb). exists n. now rewrite scanContentLength_filter.
Qed.

Lemma method_is_neither (m : string) :
  m <> "GET" -> m <> "HEAD" -> ((m =? "GET") || (m =? "HEAD"))%string = false.
Proof.
  intros Hg Hh.
  destruct (m =? "GET")%string eqn:Eg; [apply String.eqb_eq in Eg; contradiction|].
  destruct (m =? "HEAD")%string eqn:Eh; [apply String.eqb_eq in Eh; contradiction|].
  reflexivity.
Qed.

End BodyChoice.

Section Claims.
Context {U : UnicodeTables}.

(** X22.  The header cap is checked once a line has been read in full.  On
    a stream that starts with complete lines [ls] (a request line of three
    tokens or more, then header lines with a colon each) of 8192 bytes or
    fewer together, then a complete line [l] that takes the count past 8192,
    the parser fails with the error "Buffer is too large" and has read up to
    the end of [l] and no further: the rest of the stream is left unread.
    This holds for every reader on that stream, however the bytes are split
    between what is buffered and the fragments still to come. *)
Theorem header_cap_is_checked_after_each_line
    (b : bufio.Reader) (ls : list string) (l rest : string) :
  Forall completeLine ls -> completeLine l -> headLines true ls = true ->
  (Z.of_nat (String.length (joined ls)) <= 8192
   < Z.of_nat (String.length (joined ls)) + Z.of_nat (String.length l))%Z ->
  bufio.unread b = joined ls ++ l ++ rest ->
  exists b',
    parseHTTPRequest b = Some (Ret emptyReq (Some (Errorf "Buffer is too large")), b')
    /\ bufio.unread b' = rest.
Proof.
  intros Hls Hl Hw [Hle Hgt] Hu. unfold parseHTTPRequest.
  apply (parseLoop_cap ls initially b _ l rest); simpl; auto; lia.
Qed.

(** C2, as amended.  The parser never looks at [Transfer-Encoding]: for every
    request it returns whose method is neither GET nor HEAD -- one that
    carries both [Transfer-Encoding: chunked] and [Content-Length] included --
    it selects the bounded body reader, whose length is the number that the
    value of the last [content-length] header stands for (0 without one).
    When that length is not negative, the body delivered to a consumer is
    made of the first that many bytes the reader has left unread, or of all
    there are and an error when the stream ends before, whatever the chunk
    framing in them says. *)
Theorem content_length_selects_the_body_reader (b b' : bufio.Reader) (req : HTTPReq) :
  parseHTTPRequest b = Some (Ret req None, b') ->
  Method req <> "GET" -> Method req <> "HEAD" ->
  exists n,
    n = lastContentLength (Headers req)
    /\ Body req = Some {| buf := b'; remaining := n |}
    /\ forall k, 0 < k ->
         ((0 <= n <= Z.of_nat (String.length (bufio.unread b')))%Z ->
          exists r', ReadAll k {| buf := b'; remaining := n |}
                     = Some (Ret (takeString (Z.to_nat n) (bufio.unread b')) None, r'))
         /\ ((Z.of_nat (String.length (bufio.unread b')) < n)%Z ->
             exists r', ReadAll k {| buf := b'; remaining := n |}
                        = Some (Ret (bufio.unread b')
                                    (Some (Wrapf "An error occurred %w"
                                                 (bufio.closing (bufio.rd b')))), r')).
Proof.
  intros Hp Hg Hh. apply parsed_body in Hp.
  rewrite (method_is_neither _ Hg Hh) in Hp. destruct Hp as (n & Hs & Hb).
  exists n. split; [|split; [exact Hb|]].
  - rewrite scanContentLength_filter in Hs. exact (scanContentLength_last _ _ _ Hs).
  - intros k Hk.
    destruct (ReadAll_bufio k {| buf := b'; remaining := n |} Hk) as (r' & Hr).
    cbn [buf remaining] in Hr. unfold bodyOf in Hr. split; intros Hn; exists r'; rewrite Hr.
    + destruct (n <? 0)%Z eqn:E1; [apply Z.ltb_lt in E1; lia|].
      destruct (n <=? _)%Z eqn:E2; [reflexivity | apply Z.leb_gt in E2; lia].
    + destruct (n <? 0)%Z eqn:E1; [apply Z.ltb_lt in E1; lia|].
      destruct (n <=? _)%Z eqn:E2; [apply Z.leb_le in E2; lia | reflexivity].
Qed.

(** X23.  Fragmentation invariance of the parser that reads through
    [bufio.Reader]: two connections that deliver the same bytes and end the
    same way, in whatever fragments (one byte at a time, or all in one
    piece), make the parser return, and a handler then sees the same request
    (method, target, version, headers), the same error and the same body
    bytes on both. *)
Theorem parsing_is_fragmentation_invariant (n : nat) (c1 c2 : bufio.Conn) :
  0 < n ->
  bufio.streamOf (bufio.arriving c1) = bufio.streamOf (bufio.arriving c2) ->
  bufio.closing c1 = bufio.closing c2 ->
  exists o, handled n (serve c1) = Some o /\ handled n (serve c2) = Some o.
Proof.
  intros Hn Hs Hc. unfold serve.
  assert (Hf : flat (bufio.NewReader c1) = flat (bufio.NewReader c2)).
  { apply flat_eq; [unfold bufio.unread; simpl; exact Hs | exact Hc]. }
  apply handled_flat; [exact Hn | now apply parseHTTPRequest_flat |].
  destruct (parseHTTPRequest_returns (bufio.NewReader c1)) as (o & b' & H).
  now exists (o, b').
Qed.

(** X1.  A request parsed with the method GET or HEAD has no body, whatever
    its headers. *)
Theorem get_and_head_have_no_body (b b' : bufio.Reader) (req : HTTPReq) :
  parseHTTPRequest b = Some (Ret req None, b') ->
  Method req = "GET" \/ Method req = "HEAD" ->
  Body req = None.
Proof.
  intros Hp Hm. apply parsed_body in Hp.
  destruct Hm as [Hm|Hm]; rewrite Hm in Hp; exact Hp.
Qed.

(** X2.  A request parsed with another method and no [content-length]
    header has a bounded body reader of length zero. *)
Theorem no_content_length_means_no_bytes (b b' : bufio.Reader) (req : HTTPReq) :
  parseHTTPRequest b = Some (Ret req None, b') ->
  Method req <> "GET" -> Method req <> "HEAD" ->
  filter isContentLength (Headers req) = [] ->
  Body req = Some {| buf := b'; remaining := 0 |}.
Proof.
  intros Hp Hg Hh Hn. apply parsed_body in Hp.
  rewrite (method_is_neither _ Hg Hh) in Hp. destruct Hp as (n & Hs & Hb).
  rewrite Hn in Hs. simpl in Hs. injection Hs as <-. exact Hb.
Qed.

(** X3.  The parser returns or panics on every reader over a connection
    that ends: its loop does not go on for ever. *)
Theorem parseHTTPRequest_leaves_its_loop (b : bufio.Reader) :
  exists o b', parseHTTPRequest b = Some (o, b').
Proof. apply parseHTTPRequest_returns. Qed.

End Claims.

Section BoundedReader.
Context {Src : Type} `{io.Reader Src}.

(** C7.  The bounded body reader, with [remaining >= 0].  A read with
    [remaining = 0] answers end-of-data at once and leaves the reader, its
    source included, as it was.  A read with [remaining > 0] asks the source
    once, for [min(len(buf), remaining)] bytes, so it obtains that many at
    most; when the source gives bytes without an error the call returns them
    and [remaining] goes down by exactly their number (and stays
    non-negative); when the source gives an error the call returns no byte,
    the error wrapped, and [remaining] as it was. *)
Theorem LimitedBodyReader_Read_is_bounded (r : LimitedBodyReader Src) (n : nat) :
  (0 <= remaining r)%Z ->
  (remaining r = 0%Z -> LimitedBodyReader_Read r n = (Ret "" (Some EOF), r))
  /\ ((0 < remaining r)%Z ->
      forall (data : string) (err : option error) (src : Src),
        io.Read (buf r) (Z.to_nat (Z.min (Z.of_nat n) (remaining r))) = ((data, err), src) ->
        (Z.of_nat (String.length data) <= Z.min (Z.of_nat n) (remaining r))%Z
        /\ match err with
           | None =>
             LimitedBodyReader_Read r n
             = (Ret data None,
                {| buf := src; remaining := (remaining r - Z.of_nat (String.length data))%Z |})
             /\ (0 <= remaining r - Z.of_nat (String.length data))%Z
           | Some e =>
             LimitedBodyReader_Read r n
             = (Ret "" (Some (Wrapf "An error occurred %w" e)),
                {| buf := src; remaining := remaining r |})
           end).
Proof.
  intros Hr. split.
  - intros H0. unfold LimitedBodyReader_Read. now rewrite H0.
  - intros Hpos data err src HR.
    pose proof (io.Read_le (buf r) (Z.to_nat (Z.min (Z.of_nat n) (remaining r)))) as Hle.
    rewrite HR in Hle. simpl in Hle.
    assert (Hd : (Z.of_nat (String.length data) <= Z.min (Z.of_nat n) (remaining r))%Z) by lia.
    split; [exact Hd|].
    unfold LimitedBodyReader_Read.
    destruct (remaining r =? 0)%Z eqn:E0; [apply Z.eqb_eq in E0; lia|].
    destruct (Z.min (Z.of_nat n) (remaining r) <? 0)%Z eqn:E1; [apply Z.ltb_lt in E1; lia|].
    rewrite HR. destruct err as [e|]; [reflexivity | split; [reflexivity | lia]].
Qed.

(** C10.  When the source returns an error to a read of the bounded body
    reader, the call reports no byte and an error (the source's, wrapped),
    and [remaining] is what it was, also when the source handed over bytes
    with the error. *)
Theorem LimitedBodyReader_Read_on_error
    (r : LimitedBodyReader Src) (n : nat) (data : string) (e : error) (src : Src) :
  (0 < remaining r)%Z ->
  io.Read (buf r) (Z.to_nat (Z.min (Z.of_nat n) (remaining r))) = ((data, Some e), src) ->
  LimitedBodyReader_Read r n
  = (Ret "" (Some (Wrapf "An error occurred %w" e)), {| buf := src; remaining := remaining r |}).
Proof.
  intros Hpos HR. unfold LimitedBodyReader_Read.
  destruct (remaining r =? 0)%Z eqn:E0; [apply Z.eqb_eq in E0; lia|].
  destruct (Z.min (Z.of_nat n) (remaining r) <? 0)%Z eqn:E1; [apply Z.ltb_lt in E1; lia|].
  now rewrite HR.
Qed.

(** One read never makes [remaining] negative, and never raises it. *)
Lemma remaining_after_Read (r : LimitedBodyReader Src) (n : nat) :
  (0 <= remaining r)%Z ->
  (0 <= remaining (snd (LimitedBodyReader_Read r n)) <= remaining r)%Z.
Proof.
  intros Hr. unfold LimitedBodyReader_Read.
  destruct (remaining r =? 0)%Z eqn:E0; [simpl; lia|].
  destruct (Z.min (Z.of_nat n) (remaining r) <? 0)%Z eqn:E1; [simpl; lia|].
  pose proof (io.Read_le (buf r) (Z.to_nat (Z.min (Z.of_nat n) (remaining r)))) as Hle.
  destruct (io.Read _ _) as [[data [e|]] src]; simpl in *; lia.
Qed.

(** X4.  From a [remaining] that is not negative, every sequence of reads
    keeps it so and never raises it. *)
Theorem remaining_descends (sizes : list nat) :
  forall r : LimitedBodyReader Src,
    (0 <= remaining r)%Z -> descends (remaining r) (remainingAfter r sizes).
Proof.
  induction sizes as [|n sizes IH]; intros r Hr; simpl; [exact I|].
  pose proof (remaining_after_Read r n Hr) as Hn.
  split; [exact Hn | apply IH; lia].
Qed.

End BoundedReader.

(** * The claims on concrete connections *)

#[local] Existing Instance noTables.

(** C1, failing inputs.  On [overlong] the header block passes 8192 bytes
    with the third read of the connection, no line having ended; the parser
    goes on reading, two reads and 4097 bytes more, until the line ends, and
    only then reports "Buffer is too large".  On [unterminated] it reads to
    the end of the stream, and the error it returns is the connection's
    end-of-file, not the cap: a line that does not end is buffered whole,
    whatever its length. *)
Lemma cap_is_not_checked_within_a_line :
  (8192 <? Z.of_nat (String.length (bufio.streamOf (firstn 3 (bufio.arriving overlong)))))%Z
  = true
  /\ serve overlong
     = Some (Ret emptyReq (Some (Errorf "Buffer is too large")),
             {| bufio.pending := "";
                bufio.rd := {| bufio.arriving := pieces ["tail"]; bufio.closing := EOF |} |})
  /\ serve unterminated
     = Some (Ret emptyReq (Some (Wrapf "Something went wrong %w" EOF)),
             {| bufio.pending := "";
                bufio.rd := {| bufio.arriving := []; bufio.closing := EOF |} |}).
Proof. repeat split; vm_compute; reflexivity. Qed.

(** X22 at a request line, a header line of 8201 bytes and a further line,
    delivered in three fragments. *)
Lemma header_cap_is_checked_after_each_line_witness :
  exists b',
    parseHTTPRequest
      (bufio.NewReader
         (delivered ["GET / HTTP/1.1" ++ CRLF ++ takeString 4000 padded;
                     takeString 4000 (dropString 4000 padded);
                     dropString (2 * 4000) padded ++ "Host: x" ++ CRLF]))
    = Some (Ret emptyReq (Some (Errorf "Buffer is too large")), b')
    /\ bufio.unread b' = "Host: x" ++ CRLF.
Proof.
  apply (header_cap_is_checked_after_each_line _ ["GET / HTTP/1.1" ++ CRLF] padded).
  - repeat constructor.
  - vm_compute. reflexivity.
  - vm_compute. reflexivity.
  - split; [apply Z.leb_le | apply Z.ltb_lt]; vm_compute; reflexivity.
  - vm_compute. reflexivity.
Defined.

(** C2, the claim as stated fails.  The request carries
    [Transfer-Encoding: chunked], a chunk of the five bytes "hello", and
    [Content-Length: 3]: the parser returns the bounded reader with
    [remaining = 3], and a consumer gets the three bytes "hel", not the
    payload of the chunks.  (The line "5" that announces the chunk has been
    consumed by the parser before.) *)
Lemma chunked_is_not_selected :
  serve (delivered [chunkedAndLength]) = Some (Ret chunkedRequest None, afterChunkedHead)
  /\ handled 512 (serve (delivered [chunkedAndLength]))
     = Some (Ret {| method := "POST"; target := "/u"; version := "HTTP/1.1";
                    headers := [{| Name := "transfer-encoding"; Value := "chunked" |};
                                {| Name := "content-length"; Value := "3" |}];
                    body := Some (Ret "hel" None) |} None).
Proof. split; vm_compute; reflexivity. Qed.

(** C2, the amended claim at the request of the counterexample. *)
Lemma content_length_selects_the_body_reader_witness :
  exists n,
    n = lastContentLength (Headers chunkedRequest)
    /\ Body chunkedRequest = Some {| buf := afterChunkedHead; remaining := n |}
    /\ forall k, 0 < k ->
         ((0 <= n <= Z.of_nat (String.length (bufio.unread afterChunkedHead)))%Z ->
          exists r', ReadAll k {| buf := afterChunkedHead; remaining := n |}
                     = Some (Ret (takeString (Z.to_nat n) (bufio.unread afterChunkedHead)) None,
                             r'))
         /\ ((Z.of_nat (String.length (bufio.unread afterChunkedHead)) < n)%Z ->
             exists r', ReadAll k {| buf := afterChunkedHead; remaining := n |}
                        = Some (Ret (bufio.unread afterChunkedHead)
                                    (Some (Wrapf "An error occurred %w"
                                                 (bufio.closing (bufio.rd afterChunkedHead)))),
                                r')).
Proof.
  apply (content_length_selects_the_body_reader
           (bufio.NewReader (delivered [chunkedAndLength])) afterChunkedHead chunkedRequest).
  - vm_compute. reflexivity.
  - simpl. discriminate.
  - simpl. discriminate.
Defined.

(** C3, a failing input.  A GET request with [Content-Length: 100] and a
    second request behind it: the request comes back without a body, but the
    reader no longer holds the request line of the second request -- the
    parser has read and dropped the line after the empty line.  And a GET
    request with nothing behind it is not parsed at all: the read after the
    empty line meets the end of the stream. *)
Lemma get_consumes_the_line_after_the_header :
  serve (delivered [getWithLength])
  = Some (Ret {| Method := "GET"; URI := "/a"; Version := "HTTP/1.1";
                 Headers := [{| Name := "content-length"; Value := "100" |}];
                 Body := None |} None,
          {| bufio.pending := "Host: x" ++ CRLF ++ CRLF; bufio.rd := delivered [] |})
  /\ serve (delivered ["GET /a HTTP/1.1" ++ CRLF ++ CRLF])
     = Some (Ret emptyReq (Some (Wrapf "Something went wrong %w" EOF)),
             {| bufio.pending := ""; bufio.rd := delivered [] |}).
Proof. split; vm_compute; reflexivity. Qed.

(** C4, the claim as stated fails.  [main] runs the parser once on the
    connection: one request is parsed, the first.  The call has consumed the
    request line of the second request with it, so that a second call on the
    same reader, were there one, would take "Host: x" for a request line and
    panic at [lineData[2]]. *)
Lemma one_request_is_parsed :
  main [delivered [twoRequests]]
  = [Some (Ret requestA None,
           {| bufio.pending := "Host: x" ++ CRLF ++ "Connection: close" ++ CRLF ++ CRLF;
              bufio.rd := delivered [] |})]
  /\ parseHTTPRequest
       {| bufio.pending := "Host: x" ++ CRLF ++ "Connection: close" ++ CRLF ++ CRLF;
          bufio.rd := delivered [] |}
     = Some (Panics "index out of range",
             {| bufio.pending := "Connection: close" ++ CRLF ++ CRLF;
                bufio.rd := delivered [] |}).
Proof. split; vm_compute; reflexivity. Qed.

(** C4, as amended.  On the two pipelined requests delivered in one piece,
    the one call of the parser that [main] makes for the connection returns
    the first request, GET /a HTTP/1.1 with the header (host, x) and no
    body, and no error. *)
Theorem first_request_is_parsed :
  map (option_map fst) (main [delivered [twoRequests]]) = [Some (Ret requestA None)].
Proof. vm_compute. reflexivity. Qed.

(** C5, failing inputs.  A request line of two tokens makes the parser
    panic at [lineData[2]]: it does not return an error.  A request line of
    four tokens is parsed as if the fourth were not there. *)
Lemma request_line_is_not_validated :
  serve (delivered ["GET /" ++ CRLF ++ "Host: x" ++ CRLF ++ CRLF])
  = Some (Panics "index out of range",
          {| bufio.pending := "Host: x" ++ CRLF ++ CRLF; bufio.rd := delivered [] |})
  /\ option_map fst
       (serve (delivered ["GET / HTTP/1.1 extra" ++ CRLF ++ CRLF ++ "next" ++ CRLF]))
     = Some (Ret {| Method := "GET"; URI := "/"; Version := "HTTP/1.1"; Headers := [];
                    Body := None |} None).
Proof. split; vm_compute; reflexivity. Qed.

(** C6, a failing input.  [Content-Length: -5] is no non-negative integer,
    and the parser returns the request without an error, with a bounded
    reader of length -5. *)
Lemma negative_content_length_is_accepted :
  strconv.Atoi "-5" = ((-5)%Z, None)
  /\ option_map fst (serve (delivered [negativeLength]))
     = Some (Ret {| Method := "POST"; URI := "/u"; Version := "HTTP/1.1";
                    Headers := [{| Name := "content-length"; Value := "-5" |}];
                    Body := Some {| buf := {| bufio.pending := ""; bufio.rd := delivered [] |};
                                    remaining := (-5) |} |} None).
Proof. split; vm_compute; reflexivity. Qed.

(** C7 at a reader with five bytes to go on a connection that has delivered
    nothing yet, read with a buffer of three bytes. *)
Lemma LimitedBodyReader_Read_is_bounded_witness :
  LimitedBodyReader_Read
    {| buf := bufio.NewReader (delivered ["hello world"]); remaining := 5 |} 3
  = (Ret "hel" None,
     {| buf := {| bufio.pending := "lo world"; bufio.rd := delivered [] |}; remaining := 2 |}).
Proof.
  destruct (LimitedBodyReader_Read_is_bounded
              {| buf := bufio.NewReader (delivered ["hello world"]); remaining := 5 |} 3)
    as [_ Hpos]; [simpl; lia|].
  destruct (Hpos ltac:(simpl; lia) "hel" None
                 {| bufio.pending := "lo world"; bufio.rd := delivered [] |} eq_refl)
    as [_ [HR _]].
  exact HR.
Defined.

(** C8, a failing input.  The bounded reader that parsing makes of
    [Content-Length: -5] has a negative [remaining] from its creation, and a
    read on it panics (the slice [p[:-5]]). *)
Lemma remaining_is_negative_from_creation :
  serve (delivered [negativeLength])
  = Some (Ret {| Method := "POST"; URI := "/u"; Version := "HTTP/1.1";
                 Headers := [{| Name := "content-length"; Value := "-5" |}];
                 Body := Some negativeBody |} None, buf negativeBody)
  /\ (remaining negativeBody <? 0)%Z = true
  /\ LimitedBodyReader_Read negativeBody 16
     = (Panics "slice bounds out of range", negativeBody).
Proof. repeat split; vm_compute; reflexivity. Qed.

(** C9, a failing input.  The parser that reads the connection itself tests
    its cap on all the bytes read so far, after each read, so that what it
    returns depends on where the reads fall.  The 8229 bytes of [withBody],
    sent in one write, come back as the request (the first read brings 8192
    bytes, the header with them); the same bytes with the first byte in a
    read of its own come back as the empty request, because the second read
    takes the count to 8193 before the header is looked at.  (The header
    line "Accept: y" is lost in the first case for another reason: the line
    before the empty line is never scanned.) *)
Lemma conn_parser_depends_on_the_reads :
  bufio.streamOf (bufio.arriving (delivered [withBody]))
  = bufio.streamOf (bufio.arriving (delivered ["G"; dropString 1 withBody]))
  /\ option_map fst (ConnParser.parseHTTPRequest (delivered [withBody]))
     = Some (Ret {| HeaderParser.Method := "GET"; HeaderParser.URI := "/a";
                    HeaderParser.Version := "HTTP/1.1";
                    HeaderParser.Headers := [{| Name := "Host"; Value := "x" |}] |} None)
  /\ option_map fst (ConnParser.parseHTTPRequest (delivered ["G"; dropString 1 withBody]))
     = Some (Ret HeaderParser.emptyReq None).
Proof. repeat split; vm_compute; reflexivity. Qed.

(** X23 at a POST request with a body, one byte at a time against one piece. *)
Lemma parsing_is_fragmentation_invariant_witness :
  exists o,
    handled 4 (serve (delivered (bytewise chunkedAndLength))) = Some o
    /\ handled 4 (serve (delivered [chunkedAndLength])) = Some o.
Proof.
  apply parsing_is_fragmentation_invariant.
  - lia.
  - vm_compute. reflexivity.
  - reflexivity.
Defined.

(** C10 at a source that hands over two bytes together with an error. *)
Lemma LimitedBodyReader_Read_on_error_witness :
  LimitedBodyReader_Read
    {| buf := [("ab", Some (ErrConn "connection reset by peer"))] : script; remaining := 5 |} 8
  = (Ret "" (Some (Wrapf "An error occurred %w" (ErrConn "connection reset by peer"))),
     {| buf := [] : script; remaining := 5 |}).
Proof.
  apply (LimitedBodyReader_Read_on_error
           {| buf := [("ab", Some (ErrConn "connection reset by peer"))] : script;
              remaining := 5 |} 8 "ab").
  - simpl. lia.
  - reflexivity.
Defined.

(** X1 at the GET request with [Content-Length: 100]. *)
Lemma get_and_head_have_no_body_witness :
  Body {| Method := "GET"; URI := "/a"; Version := "HTTP/1.1";
          Headers := [{| Name := "content-length"; Value := "100" |}];
          Body := None |} = None.
Proof.
  apply (get_and_head_have_no_body
           (bufio.NewReader (delivered [getWithLength]))
           {| bufio.pending := "Host: x" ++ CRLF ++ CRLF; bufio.rd := delivered [] |}).
  - vm_compute. reflexivity.
  - left. reflexivity.
Defined.

(** X2 at a POST request without headers, followed by a line. *)
Lemma no_content_length_means_no_bytes_witness :
  Body {| Method := "POST"; URI := "/u"; Version := "HTTP/1.1"; Headers := [];
          Body := Some {| buf := {| bufio.pending := "b=2"; bufio.rd := delivered [] |};
                          remaining := 0 |} |}
  = Some {| buf := {| bufio.pending := "b=2"; bufio.rd := delivered [] |}; remaining := 0 |}.
Proof.
  apply (no_content_length_means_no_bytes
           (bufio.NewReader
              (delivered ["POST /u HTTP/1.1" ++ CRLF ++ CRLF ++ "a=1" ++ String LF "b=2"]))).
  - vm_compute. reflexivity.
  - simpl. discriminate.
  - simpl. discriminate.
  - reflexivity.
Defined.

(** X4 at three reads of a body of five bytes. *)
Lemma remaining_descends_witness :
  descends 5 (remainingAfter
                {| buf := bufio.NewReader (delivered ["hello world"]); remaining := 5 |}
                [3; 3; 3]).
Proof.
  apply (remaining_descends [3; 3; 3]
           {| buf := bufio.NewReader (delivered ["hello world"]); remaining := 5 |}).
  simpl. lia.
Defined.

(** * The other programs *)

(** ** Reads of the connection *)

Lemma takeString_all (n : nat) (s : string) :
  String.length s <= n -> takeString n s = s.
Proof.
  revert s; induction n as [|n IH]; intros [|c s]; simpl; intros Hl; try reflexivity; try lia.
  rewrite IH; [reflexivity | lia].
Qed.

Lemma dropString_all (n : nat) (s : string) :
  String.length s <= n -> dropString n s = "".
Proof.
  revert s; induction n as [|n IH]; intros [|c s]; simpl; intros Hl; try reflexivity; try lia.
  apply IH; lia.
Qed.


Lemma streamOf_pieces (s : string) (fs : list bufio.fragment) :
  bufio.streamOf (pieces [s] ++ fs) = s ++ bufio.streamOf fs.
Proof. destruct s; reflexivity. Qed.

(** A read with room for a byte takes the next bytes of the stream, one at
    least, and only fails when the stream is over. *)
Lemma net_Read_next (conn : bufio.Conn) (n : nat) :
  0 < n -> bufio.arriving conn <> [] ->
  exists data conn',
    net.Read conn n = ((data, None), conn')
    /\ 0 < String.length data <= n
    /\ bufio.streamOf (bufio.arriving conn) = data ++ bufio.streamOf (bufio.arriving conn')
    /\ bufio.closing conn' = bufio.closing conn.
Proof.
  intros Hn Ha. unfold net.Read. destruct n as [|n]; [lia|].
  destruct (bufio.arriving conn) as [|f fs]; [now elim Ha|].
  eexists _, _; split; [reflexivity|].
  pose proof (takeString_length n (bufio.more f)) as Hl.
  cbn [bufio.arriving bufio.closing].
  rewrite streamOf_pieces. simpl.
  repeat split; try lia.
  now rewrite <- append_assoc, take_drop.
Qed.

Lemma net_Read_end (conn : bufio.Conn) (n : nat) :
  0 < n -> bufio.arriving conn = [] ->
  net.Read conn n = (("", Some (bufio.closing conn)), conn).
Proof.
  intros Hn Ha. unfold net.Read. destruct n as [|n]; [lia|]. now rewrite Ha.
Qed.

(** A piece that fits the buffer is read whole. *)
Lemma net_Read_piece (f : bufio.fragment) (fs : list bufio.fragment) (e : error) (n : nat) :
  String.length (bufio.bytes f) <= n ->
  net.Read {| bufio.arriving := f :: fs; bufio.closing := e |} n
  = ((bufio.bytes f, None), {| bufio.arriving := fs; bufio.closing := e |}).
Proof.
  intros Hl. unfold net.Read. destruct n as [|n]; [simpl in Hl; lia|].
  cbn [bufio.arriving bufio.closing].
  rewrite takeString_all, dropString_all by exact Hl. reflexivity.
Qed.

Lemma positive_4096 : 0 < 4096.
Proof. apply Nat.ltb_lt. reflexivity. Qed.

Arguments net.Read : simpl never.

(** ** The echo server *)

Lemma echoLoop_step (fuel : nat) (con : bufio.Conn) (out : list string) :
  tcp_go.echoLoop (S fuel) con out
  = let '((data, err), con') := net.Read con 4096 in
    match err with
    | Some _ => Some {| written := out; printed := []; left := con' |}
    | None =>
      if (data =? "q")%string
      then Some {| written := out; printed := ["Goodbye"]; left := con' |}
      else tcp_go.echoLoop fuel con' (out ++ [data])%list
    end.
Proof. reflexivity. Qed.

Lemma readsOf_step (fuel n : nat) (conn : bufio.Conn) :
  readsOf (S fuel) n conn
  = match net.Read conn n with
    | ((data, None), conn') => data :: readsOf fuel n conn'
    | _ => []
    end.
Proof. reflexivity. Qed.

(** The loop writes what the reads deliver, read by read, and leaves at the
    first read that is the one byte "q". *)
Lemma echoLoop_reads (fuel : nat) :
  forall (con : bufio.Conn) (out : list string),
    String.length (bufio.streamOf (bufio.arriving con)) < fuel ->
    exists r,
      tcp_go.echoLoop fuel con out = Some r
      /\ written r = (out ++ beforeQuit (readsOf fuel 4096 con))%list
      /\ printed r = (if quits (readsOf fuel 4096 con) then ["Goodbye"] else [])
      /\ bufio.streamOf (bufio.arriving con)
         = joined (beforeQuit (readsOf fuel 4096 con))
           ++ (if quits (readsOf fuel 4096 con) then "q" else "")
           ++ bufio.streamOf (bufio.arriving (left r))
      /\ (quits (readsOf fuel 4096 con) = false -> bufio.arriving (left r) = [])
      /\ Forall (fun w => 0 < String.length w <= 4096) (beforeQuit (readsOf fuel 4096 con)).
Proof.
  induction fuel as [|fuel IH]; intros con out Hf; [lia|].
  rewrite echoLoop_step, readsOf_step.
  destruct (bufio.arriving con) as [|f fs] eqn:Ea.
  - rewrite (net_Read_end con 4096 positive_4096 Ea).
    exists {| written := out; printed := []; left := con |}.
    cbn [written printed left beforeQuit quits existsb joined].
    rewrite Ea, app_nil_r. simpl. repeat split; auto.
  - destruct (net_Read_next con 4096 positive_4096) as (data & con' & HR & Hl & Hs & _);
      [rewrite Ea; discriminate|].
    rewrite HR. rewrite Ea in Hs.
    cbn [beforeQuit quits existsb]. fold (quits (readsOf fuel 4096 con')).
    destruct (data =? "q")%string eqn:Eq.
    + apply String.eqb_eq in Eq. subst data.
      exists {| written := out; printed := ["Goodbye"]; left := con' |}.
      cbn [written printed left orb joined]. rewrite app_nil_r.
      repeat split; auto. discriminate.
    + destruct (IH con' (out ++ [data])%list) as (r & Hr & Hw & Hp & Hst & Hq & Hws).
      { rewrite Hs, length_append in Hf. lia. }
      exists r. rewrite Hr. cbn [orb]. split; [reflexivity|].
      split; [now rewrite Hw, <- app_assoc|].
      split; [exact Hp|].
      split; [simpl joined; now rewrite Hs, Hst, append_assoc|].
      split; [exact Hq|]. constructor; [exact Hl | exact Hws].
Qed.

(** X5.  The echo server returns on every connection.  Its writes are what
    its reads into the buffer of 4096 bytes deliver, one write for each read
    and in order, up to the first read that delivers the one byte "q" and
    nothing else; it prints Goodbye when there is such a read, and only
    then, and leaves what comes after it unread; without one it reads the
    stream to its end.  What it has written, then that "q" if there is one,
    then what is left unread, is the stream it received, byte for byte.  No
    write is empty or longer than 4096 bytes. *)
Theorem echo_writes_back_what_it_reads (con : bufio.Conn) :
  exists r,
    tcp_go.handleConnection con = Some r
    /\ written r = beforeQuit (reads 4096 con)
    /\ printed r = (if quits (reads 4096 con) then ["Goodbye"] else [])
    /\ bufio.streamOf (bufio.arriving con)
       = joined (written r) ++ (if quits (reads 4096 con) then "q" else "")
         ++ bufio.streamOf (bufio.arriving (left r))
    /\ (quits (reads 4096 con) = false -> bufio.arriving (left r) = [])
    /\ Forall (fun w => 0 < String.length w <= 4096) (written r).
Proof.
  unfold tcp_go.handleConnection, reads.
  destruct (echoLoop_reads (S (String.length (bufio.streamOf (bufio.arriving con)))) con [])
    as (r & Hr & Hw & Hp & Hs & Hq & Hws); [lia|].
  exists r. simpl in Hw. rewrite Hw. repeat split; assumption.
Qed.

Lemma echoLoop_pieces (pre : list bufio.fragment) :
  forall (tl : list bufio.fragment) (e : error) (fuel : nat) (out : list string),
    Forall echoed pre ->
    tcp_go.echoLoop (List.length pre + fuel) {| bufio.arriving := pre ++ tl; bufio.closing := e |} out
    = tcp_go.echoLoop fuel {| bufio.arriving := tl; bufio.closing := e |}
                      (out ++ map bufio.bytes pre)%list.
Proof.
  induction pre as [|f pre IH]; intros tl e fuel out Hp.
  - simpl. now rewrite app_nil_r.
  - inversion Hp as [|? ? [Hl Hq] Hp']; subst.
    change (List.length (f :: pre) + fuel) with (S (List.length pre + fuel)).
    rewrite echoLoop_step. change ((f :: pre) ++ tl)%list with (f :: (pre ++ tl))%list.
    rewrite (net_Read_piece f (pre ++ tl) e 4096 Hl).
    apply String.eqb_neq in Hq. rewrite Hq.
    rewrite IH by exact Hp'. simpl map. now rewrite <- app_assoc.
Qed.

Lemma pieces_length (fs : list bufio.fragment) :
  List.length fs <= String.length (bufio.streamOf fs).
Proof.
  induction fs as [|f fs IH]; simpl; [lia|]. rewrite length_append. lia.
Qed.

(** X6.  When every read fits the buffer, the echo server keeps the
    boundaries of what it receives: it answers each piece with one write of
    that piece, until the connection ends, or until a piece that is the one
    byte "q", at which it prints Goodbye and returns without reading on.  A
    "q" that arrives together with other bytes is echoed like any byte. *)
Theorem echo_answers_piece_by_piece (pre : list bufio.fragment) (e : error) :
  Forall echoed pre ->
  tcp_go.handleConnection {| bufio.arriving := pre; bufio.closing := e |}
  = Some {| written := map bufio.bytes pre; printed := [];
            left := {| bufio.arriving := []; bufio.closing := e |} |}
  /\ forall post,
       tcp_go.handleConnection {| bufio.arriving := pre ++ quitPiece :: post; bufio.closing := e |}
       = Some {| written := map bufio.bytes pre; printed := ["Goodbye"];
                 left := {| bufio.arriving := post; bufio.closing := e |} |}.
Proof.
  intros Hp. unfold tcp_go.handleConnection. cbn [bufio.arriving]. split.
  - pose proof (pieces_length pre) as Hl.
    pose proof (echoLoop_pieces pre [] e
                  (S (String.length (bufio.streamOf pre) - List.length pre)) [] Hp) as H.
    rewrite app_nil_r in H.
    replace (List.length pre + S (String.length (bufio.streamOf pre) - List.length pre))
      with (S (String.length (bufio.streamOf pre))) in H by lia.
    rewrite H, echoLoop_step, net_Read_end by (auto using positive_4096). reflexivity.
  - intros post.
    pose proof (pieces_length (pre ++ quitPiece :: post)) as Hl.
    rewrite length_app in Hl. simpl List.length in Hl.
    pose proof (echoLoop_pieces pre (quitPiece :: post) e
                  (S (String.length (bufio.streamOf (pre ++ quitPiece :: post)))
                   - List.length pre) [] Hp) as H.
    replace (List.length pre
             + (S (String.length (bufio.streamOf (pre ++ quitPiece :: post)))
                - List.length pre))
      with (S (String.length (bufio.streamOf (pre ++ quitPiece :: post)))) in H by lia.
    rewrite H.
    replace (S (String.length (bufio.streamOf (pre ++ quitPiece :: post))) - List.length pre)
      with (S (String.length (bufio.streamOf (pre ++ quitPiece :: post)) - List.length pre))
      by lia.
    rewrite echoLoop_step, (net_Read_piece quitPiece post e 4096) by (simpl; lia).
    reflexivity.
Qed.

(** ** The one-shot echo *)


(** ** The line protocol *)

Lemma lineLoop_step (fuel : nat) (reader : bufio.Reader) (out : list string) :
  lines.lineLoop (S fuel) reader out
  = let '((line, err), reader') := bufio.ReadString reader LF in
    match lines.reply line with
    | Some (answer, true) =>
      Some {| written := (out ++ [answer])%list; printed := []; left := reader' |}
    | r =>
      let out' := match r with Some (answer, _) => (out ++ [answer])%list | None => out end in
      match err with
      | Some e =>
        Some {| written := out';
                printed := if (Error e =? "EOF")%string then []
                           else ["connection error: " ++ Error e ++ String LF ""];
                left := reader' |}
      | None => lines.lineLoop fuel reader' out'
      end
    end.
Proof. reflexivity. Qed.

Lemma lineLoop_flat (f1 : nat) :
  forall (f2 : nat) (b1 b2 : bufio.Reader) (out : list string),
    flat b1 = flat b2 ->
    String.length (bufio.unread b1) < f1 ->
    String.length (bufio.unread b2) < f2 ->
    exists r1 r2,
      lines.lineLoop f1 b1 out = Some r1 /\ lines.lineLoop f2 b2 out = Some r2
      /\ written r1 = written r2 /\ printed r1 = printed r2
      /\ flat (left r1) = flat (left r2).
Proof.
  induction f1 as [|f1 IH]; intros f2 b1 b2 out Hf H1 H2; [lia|].
  destruct f2 as [|f2]; [lia|].
  rewrite !lineLoop_step.
  destruct (ReadString_flat b1 b2 Hf) as [Hl Hb].
  destruct (bufio.ReadString b1 LF) as [[line1 err1] b1'] eqn:E1.
  destruct (bufio.ReadString b2 LF) as [[line2 err2] b2'] eqn:E2.
  simpl in Hl, Hb. injection Hl as <- <-.
  assert (Hgo : err1 = None ->
                String.length (bufio.unread b1') < f1 /\ String.length (bufio.unread b2') < f2).
  { intros ->.
    destruct (ReadString_shortens _ _ _ E1) as [U1 L1].
    destruct (ReadString_shortens _ _ _ E2) as [U2 L2].
    rewrite U1, length_append in H1. rewrite U2, length_append in H2. lia. }
  destruct (lines.reply line1) as [[ans [|]]|].
  - eexists _, _. repeat split; auto.
  - destruct err1 as [e|].
    + eexists _, _. repeat split; auto.
    + destruct (Hgo eq_refl). now apply IH.
  - destruct err1 as [e|].
    + eexists _, _. repeat split; auto.
    + destruct (Hgo eq_refl). now apply IH.
Qed.

(** X8.  The line server does not see how the stream is fragmented: on two
    connections that deliver the same bytes and end the same way it returns
    with the same replies written, the same text printed and the same bytes
    left unread. *)
Theorem line_server_is_fragmentation_invariant (c1 c2 : bufio.Conn) :
  bufio.streamOf (bufio.arriving c1) = bufio.streamOf (bufio.arriving c2) ->
  bufio.closing c1 = bufio.closing c2 ->
  exists r1 r2,
    lines.handleConn c1 = Some r1 /\ lines.handleConn c2 = Some r2
    /\ written r1 = written r2 /\ printed r1 = printed r2
    /\ bufio.unread (left r1) = bufio.unread (left r2).
Proof.
  intros Hs Hc. unfold lines.handleConn.
  assert (Hf : flat (bufio.NewReader c1) = flat (bufio.NewReader c2)).
  { apply flat_eq; [unfold bufio.unread; simpl; exact Hs | exact Hc]. }
  destruct (lineLoop_flat (S (String.length (bufio.streamOf (bufio.arriving c1))))
              (S (String.length (bufio.streamOf (bufio.arriving c2))))
              (bufio.NewReader c1) (bufio.NewReader c2) [] Hf)
    as (r1 & r2 & H1 & H2 & Hw & Hp & Hl); try (unfold bufio.unread; simpl; lia).
  exists r1, r2. repeat split; auto. now destruct (flat_inv _ _ Hl).
Qed.

Lemma TrimRight_message (l : string) :
  bufio.cutAfter l LF = None -> lines.TrimRight l LF = l.
Proof.
  induction l as [|a l IH]; simpl; [reflexivity|].
  destruct (a =? LF)%char eqn:Ea; [discriminate|].
  destruct (bufio.cutAfter l LF) as [[x y]|]; [discriminate|].
  intros _. rewrite IH by reflexivity. now destruct l.
Qed.

Lemma TrimRight_terminated (l : string) :
  bufio.cutAfter l LF = None -> lines.TrimRight (terminated l) LF = l.
Proof.
  unfold terminated. induction l as [|a l IH]; simpl; [reflexivity|].
  destruct (a =? LF)%char eqn:Ea; [discriminate|].
  destruct (bufio.cutAfter l LF) as [[x y]|]; [discriminate|].
  intros _. rewrite IH by reflexivity. now destruct l.
Qed.

Lemma completeLine_terminated (l : string) :
  bufio.cutAfter l LF = None -> completeLine (terminated l).
Proof.
  unfold completeLine, terminated. intros H.
  rewrite cutAfter_append, H. reflexivity.
Qed.

Lemma reply_terminated (l : string) :
  bufio.cutAfter l LF = None ->
  lines.reply (terminated l)
  = Some (if (l =? "quit")%string then ("Bye." ++ String LF "", true) else (answer l, false)).
Proof.
  intros H. unfold lines.reply. rewrite (TrimRight_terminated l H).
  destruct (terminated l) eqn:E; [destruct l; discriminate|].
  now destruct (l =? "quit")%string.
Qed.

Lemma lineLoop_messages (ls : list string) :
  forall (b : bufio.Reader) (out : list string) (fuel : nat) (rest : string),
    Forall message ls ->
    bufio.unread b = joined (map terminated ls) ++ rest ->
    exists b',
      bufio.unread b' = rest
      /\ bufio.closing (bufio.rd b') = bufio.closing (bufio.rd b)
      /\ lines.lineLoop (List.length ls + fuel) b out
         = lines.lineLoop fuel b' (out ++ map answer ls)%list.
Proof.
  induction ls as [|l ls IH]; intros b out fuel rest Hm Hu.
  - exists b. simpl. now rewrite app_nil_r.
  - inversion Hm as [|? ? [Hl Hq] Hm']; subst.
    simpl in Hu. rewrite append_assoc in Hu.
    destruct (ReadString_line b (terminated l) _ (completeLine_terminated l Hl) Hu)
      as (b1 & HR & Hu1 & Hc1).
    destruct (IH b1 (out ++ [answer l])%list fuel rest Hm' Hu1) as (b' & Hu' & Hc' & HL).
    exists b'. split; [exact Hu'|]. split; [congruence|].
    change (List.length (l :: ls) + fuel) with (S (List.length ls + fuel)).
    rewrite lineLoop_step, HR, (reply_terminated l Hl).
    apply String.eqb_neq in Hq. rewrite Hq. cbv zeta.
    rewrite HL. simpl map. now rewrite <- app_assoc.
Qed.

Lemma messages_length (ls : list string) :
  List.length ls <= String.length (joined (map terminated ls)).
Proof.
  induction ls as [|l ls IH]; simpl; [lia|].
  unfold terminated at 1. rewrite !length_append. simpl. lia.
Qed.

(** X9.  The line server answers every message, in order, with "Echo: "
    and the message, and the first line "quit" with "Bye."; there it
    returns, and the bytes behind that line are left unread. *)
Theorem line_server_answers_until_quit (conn : bufio.Conn) (ls : list string) (rest : string) :
  Forall message ls ->
  bufio.streamOf (bufio.arriving conn)
  = joined (map terminated ls) ++ terminated "quit" ++ rest ->
  exists r,
    lines.handleConn conn = Some r
    /\ written r = (map answer ls ++ [terminated "Bye."])%list
    /\ printed r = []
    /\ bufio.unread (left r) = rest.
Proof.
  intros Hm Hs. unfold lines.handleConn.
  pose proof (messages_length ls) as Hlen.
  destruct (lineLoop_messages ls (bufio.NewReader conn) []
              (S (String.length (bufio.streamOf (bufio.arriving conn))) - List.length ls)
              (terminated "quit" ++ rest) Hm) as (b' & Hu' & _ & HL).
  { unfold bufio.unread. simpl. exact Hs. }
  replace (List.length ls
           + (S (String.length (bufio.streamOf (bufio.arriving conn))) - List.length ls))
    with (S (String.length (bufio.streamOf (bufio.arriving conn)))) in HL
    by (rewrite Hs, length_append; lia).
  rewrite HL.
  replace (S (String.length (bufio.streamOf (bufio.arriving conn))) - List.length ls)
    with (S (String.length (bufio.streamOf (bufio.arriving conn)) - List.length ls))
    by (rewrite Hs, length_append; lia).
  destruct (ReadString_line b' (terminated "quit") rest) as (b2 & HR & Hu2 & _);
    [reflexivity | exact Hu' |].
  rewrite lineLoop_step, HR. simpl.
  eexists. repeat split; auto.
Qed.

(** X10.  When the connection ends without a "quit", the line server has
    answered every message, and also the text after the last line feed,
    should there be any: an unfinished line is answered like a finished
    one.  It prints the error of the connection unless its text is "EOF". *)
Theorem line_server_answers_an_unfinished_line
    (conn : bufio.Conn) (ls : list string) (last : string) :
  Forall message ls -> message last ->
  bufio.streamOf (bufio.arriving conn) = joined (map terminated ls) ++ last ->
  exists r,
    lines.handleConn conn = Some r
    /\ written r = (map answer ls ++ match last with
                                      | EmptyString => []
                                      | _ => [answer last]
                                      end)%list
    /\ printed r = (if (Error (bufio.closing conn) =? "EOF")%string then []
                    else ["connection error: " ++ Error (bufio.closing conn) ++ String LF ""])
    /\ bufio.unread (left r) = "".
Proof.
  intros Hm [Hl Hq] Hs. unfold lines.handleConn.
  pose proof (messages_length ls) as Hlen.
  destruct (lineLoop_messages ls (bufio.NewReader conn) []
              (S (String.length (bufio.streamOf (bufio.arriving conn))) - List.length ls)
              last Hm) as (b' & Hu' & Hc' & HL).
  { unfold bufio.unread. simpl. exact Hs. }
  replace (List.length ls
           + (S (String.length (bufio.streamOf (bufio.arriving conn))) - List.length ls))
    with (S (String.length (bufio.streamOf (bufio.arriving conn)))) in HL
    by (rewrite Hs, length_append; lia).
  rewrite HL.
  replace (S (String.length (bufio.streamOf (bufio.arriving conn))) - List.length ls)
    with (S (String.length (bufio.streamOf (bufio.arriving conn)) - List.length ls))
    by (rewrite Hs, length_append; lia).
  destruct (ReadString_firstLine b' LF) as (H1 & H2 & _).
  unfold firstLine in H1, H2. rewrite Hu', Hl in H1, H2.
  destruct (bufio.ReadString b' LF) as [[line err] b2] eqn:HR. simpl in H1, H2, Hc'.
  injection H1 as -> ->.
  rewrite lineLoop_step, HR. unfold lines.reply. rewrite (TrimRight_message last Hl).
  apply String.eqb_neq in Hq. rewrite Hc'.
  destruct last as [|c last]; [|rewrite Hq]; cbv zeta; eexists; repeat split; auto.
  now rewrite app_nil_r.
Qed.

(** ** The parser of the header alone *)

Lemma headerParser_step (fuel : nat) (v : HeaderParser.locals) (reader : bufio.Reader) :
  HeaderParser.parseLoop (S fuel) v reader
  = let '((b, err), reader') := bufio.ReadString reader LF in
    match HeaderParser.iteration v b err with
    | HeaderParser.Return r => Some (r, reader')
    | HeaderParser.Break v' => Some (Ret (HeaderParser.finish v') None, reader')
    | HeaderParser.Continue v' => HeaderParser.parseLoop fuel v' reader'
    end.
Proof. reflexivity. Qed.

Lemma headerParser_headerLine (v : HeaderParser.locals) (l : string) :
  (0 < HeaderParser.count v)%Z -> hasColon l = true ->
  (HeaderParser.totalBytes v + Z.of_nat (String.length l) <= 8192)%Z ->
  HeaderParser.iteration v l None
  = HeaderParser.Continue
      {| HeaderParser.httpReq := HeaderParser.httpReq v;
         HeaderParser.headerArr := (HeaderParser.headerArr v ++ [headerOf l])%list;
         HeaderParser.totalBytes := (HeaderParser.totalBytes v + Z.of_nat (String.length l))%Z;
         HeaderParser.count := (HeaderParser.count v + 1)%Z |}.
Proof.
  intros Hn Ht Hb. unfold HeaderParser.iteration.
  destruct (8192 <? _)%Z eqn:E; [apply Z.ltb_lt in E; lia|].
  destruct (l =? CRLF)%string eqn:El; [apply String.eqb_eq in El; subst l; discriminate|].
  destruct (HeaderParser.count v =? 0)%Z eqn:E0; [apply Z.eqb_eq in E0; lia|].
  unfold hasColon in Ht. unfold strings.SplitN, headerOf.
  destruct (strings.Cut l ":") as [[before after]|]; [reflexivity | discriminate].
Qed.

Lemma headerParser_requestLine (v : HeaderParser.locals) (l : string) :
  HeaderParser.count v = 0%Z -> threeTokens l = true ->
  (HeaderParser.totalBytes v + Z.of_nat (String.length l) <= 8192)%Z ->
  HeaderParser.iteration v l None
  = HeaderParser.Continue
      {| HeaderParser.httpReq :=
           {| HeaderParser.Method := token 0 l; HeaderParser.URI := token 1 l;
              HeaderParser.Version := token 2 l;
              HeaderParser.Headers := HeaderParser.Headers (HeaderParser.httpReq v) |};
         HeaderParser.headerArr := HeaderParser.headerArr v;
         HeaderParser.totalBytes := (HeaderParser.totalBytes v + Z.of_nat (String.length l))%Z;
         HeaderParser.count := (HeaderParser.count v + 1)%Z |}.
Proof.
  intros Hn Ht Hb. unfold HeaderParser.iteration. rewrite Hn.
  destruct (8192 <? _)%Z eqn:E; [apply Z.ltb_lt in E; lia|].
  destruct (l =? CRLF)%string eqn:El; [apply String.eqb_eq in El; subst l; discriminate|].
  simpl Z.eqb. cbv iota. unfold threeTokens in Ht. unfold token.
  destruct (strings.Split l " ") as [|m [|u [|ver ts]]]; try discriminate.
  reflexivity.
Qed.

Lemma headerParser_emptyLine (v : HeaderParser.locals) :
  (HeaderParser.totalBytes v + 2 <= 8192)%Z ->
  HeaderParser.iteration v CRLF None
  = HeaderParser.Break
      {| HeaderParser.httpReq := HeaderParser.httpReq v;
         HeaderParser.headerArr := HeaderParser.headerArr v;
         HeaderParser.totalBytes := (HeaderParser.totalBytes v + 2)%Z;
         HeaderParser.count := HeaderParser.count v |}.
Proof.
  intros Hb. unfold HeaderParser.iteration. simpl String.length.
  change (Z.of_nat 2) with 2%Z.
  destruct (8192 <? _)%Z eqn:E; [apply Z.ltb_lt in E; lia | reflexivity].
Qed.

Lemma headerParser_headers (hs : list string) :
  forall (v : HeaderParser.locals) (b : bufio.Reader) (fuel : nat) (rest : string),
    (0 < HeaderParser.count v)%Z ->
    Forall completeLine hs -> headLines false hs = true ->
    (HeaderParser.totalBytes v + Z.of_nat (String.length (joined hs)) + 2 <= 8192)%Z ->
    bufio.unread b = joined hs ++ CRLF ++ rest ->
    List.length hs < fuel ->
    exists b',
      HeaderParser.parseLoop fuel v b
      = Some (Ret {| HeaderParser.Method := HeaderParser.Method (HeaderParser.httpReq v);
                     HeaderParser.URI := HeaderParser.URI (HeaderParser.httpReq v);
                     HeaderParser.Version := HeaderParser.Version (HeaderParser.httpReq v);
                     HeaderParser.Headers :=
                       (HeaderParser.headerArr v ++ map headerOf hs)%list |} None, b')
      /\ bufio.unread b' = rest
      /\ bufio.closing (bufio.rd b') = bufio.closing (bufio.rd b).
Proof.
  induction hs as [|l hs IH]; intros v b fuel rest Hn Hls Hw Hle Hu Hf;
    (destruct fuel as [|fuel]; [simpl in Hf; lia|]); rewrite headerParser_step.
  - simpl in Hu, Hle.
    destruct (ReadString_line b CRLF rest) as (b' & HR & Hu' & Hc'); [reflexivity | exact Hu |].
    rewrite HR, headerParser_emptyLine by lia.
    exists b'. unfold HeaderParser.finish. simpl. rewrite app_nil_r. auto.
  - simpl in Hu, Hle, Hw, Hf. rewrite append_assoc in Hu. rewrite length_append in Hle.
    apply andb_prop in Hw. destruct Hw as [Hw1 Hw2].
    inversion Hls as [|? ? Hl1 Hls']; subst.
    destruct (ReadString_line b l _ Hl1 Hu) as (b1 & HR & Hu1 & Hc1).
    rewrite HR, headerParser_headerLine by (auto; lia).
    destruct (IH {| HeaderParser.httpReq := HeaderParser.httpReq v;
                    HeaderParser.headerArr := (HeaderParser.headerArr v ++ [headerOf l])%list;
                    HeaderParser.totalBytes :=
                      (HeaderParser.totalBytes v + Z.of_nat (String.length l))%Z;
                    HeaderParser.count := (HeaderParser.count v + 1)%Z |} b1 fuel rest)
      as (b' & HP & Hu' & Hc'); simpl; auto; try lia.
    exists b'. rewrite HP. simpl. rewrite <- app_assoc. simpl.
    repeat split; auto. congruence.
Qed.

Lemma block_length (ls : list string) :
  Forall completeLine ls -> List.length ls <= String.length (joined ls).
Proof.
  induction 1 as [|l ls Hl _ IH]; simpl; [lia|].
  pose proof (completeLine_length l Hl). rewrite length_append. lia.
Qed.

(** The parser on a stream that starts with a header block: lines [ls], then
    the empty line. *)
Lemma headerParser_block (b : bufio.Reader) (ls : list string) (rest : string) :
  Forall completeLine ls -> headLines true ls = true ->
  (Z.of_nat (String.length (joined ls)) + 2 <= 8192)%Z ->
  bufio.unread b = joined ls ++ CRLF ++ rest ->
  exists b',
    HeaderParser.parseHTTPRequest b = Some (Ret (requestOf ls) None, b')
    /\ bufio.unread b' = rest
    /\ bufio.closing (bufio.rd b') = bufio.closing (bufio.rd b).
Proof.
  intros Hls Hw Hle Hu. unfold HeaderParser.parseHTTPRequest.
  destruct ls as [|l hs].
  - simpl in Hu. rewrite headerParser_step.
    destruct (ReadString_line b CRLF rest) as (b' & HR & Hu' & Hc'); [reflexivity | exact Hu |].
    rewrite HR, headerParser_emptyLine by (simpl; lia).
    exists b'. auto.
  - simpl in Hu, Hle, Hw. rewrite append_assoc in Hu. rewrite length_append in Hle.
    apply andb_prop in Hw. destruct Hw as [Hw1 Hw2].
    inversion Hls as [|? ? Hl1 Hls']; subst.
    destruct (ReadString_line b l _ Hl1 Hu) as (b1 & HR & Hu1 & Hc1).
    rewrite headerParser_step, HR, headerParser_requestLine by (simpl; auto; lia).
    pose proof (block_length hs Hls') as Hlen.
    destruct (headerParser_headers hs
                {| HeaderParser.httpReq :=
                     {| HeaderParser.Method := token 0 l; HeaderParser.URI := token 1 l;
                        HeaderParser.Version := token 2 l;
                        HeaderParser.Headers :=
                          HeaderParser.Headers (HeaderParser.httpReq HeaderParser.initially) |};
                   HeaderParser.headerArr := HeaderParser.headerArr HeaderParser.initially;
                   HeaderParser.totalBytes :=
                     (HeaderParser.totalBytes HeaderParser.initially
                      + Z.of_nat (String.length l))%Z;
                   HeaderParser.count := (HeaderParser.count HeaderParser.initially + 1)%Z |}
                b1 (String.length (bufio.unread b)) rest)
      as (b' & HP & Hu' & Hc'); simpl; auto; try lia.
    { rewrite Hu, !length_append. pose proof (completeLine_length l Hl1). lia. }
    exists b'. split; [exact HP|]. split; [exact Hu' | congruence].
Qed.

(** X11.  The parser of the header alone stops at the empty line.  On a
    stream that starts with a header block (a request line of three tokens
    or more, header lines with a colon each, 8192 bytes at most with the
    empty line) it returns the method, target and version of the request
    line and one header for each header line, in order and with the names as
    they were sent, and it leaves every byte after the empty line unread. *)
Theorem header_parser_stops_at_the_empty_line
    (b : bufio.Reader) (ls : list string) (rest : string) :
  Forall completeLine ls -> headLines true ls = true ->
  (Z.of_nat (String.length (joined ls)) + 2 <= 8192)%Z ->
  bufio.unread b = joined ls ++ CRLF ++ rest ->
  exists b',
    HeaderParser.parseHTTPRequest b = Some (Ret (requestOf ls) None, b')
    /\ bufio.unread b' = rest.
Proof.
  intros Hls Hw Hle Hu.
  destruct (headerParser_block b ls rest Hls Hw Hle Hu) as (b' & H & Hu' & _).
  now exists b'.
Qed.

(** X12.  Pipelining with the parser of the header alone: on a stream of
    two header blocks, one behind the other, a call returns the first
    request, a second call on the same reader returns the second, and what
    follows the second empty line is left unread. *)
Theorem header_parser_takes_pipelined_requests
    (b : bufio.Reader) (ls1 ls2 : list string) (rest : string) :
  Forall completeLine ls1 -> headLines true ls1 = true ->
  (Z.of_nat (String.length (joined ls1)) + 2 <= 8192)%Z ->
  Forall completeLine ls2 -> headLines true ls2 = true ->
  (Z.of_nat (String.length (joined ls2)) + 2 <= 8192)%Z ->
  bufio.unread b = (joined ls1 ++ CRLF) ++ (joined ls2 ++ CRLF) ++ rest ->
  exists b1 b2,
    HeaderParser.parseHTTPRequest b = Some (Ret (requestOf ls1) None, b1)
    /\ HeaderParser.parseHTTPRequest b1 = Some (Ret (requestOf ls2) None, b2)
    /\ bufio.unread b2 = rest.
Proof.
  intros Hl1 Hw1 Hc1 Hl2 Hw2 Hc2 Hu.
  rewrite !append_assoc in Hu.
  destruct (headerParser_block b ls1 _ Hl1 Hw1 Hc1 Hu) as (b1 & H1 & Hu1 & _).
  destruct (headerParser_block b1 ls2 rest Hl2 Hw2 Hc2 Hu1) as (b2 & H2 & Hu2 & _).
  now exists b1, b2.
Qed.

(** ** The two parsers on the same stream *)

Lemma cutAfter_line (s line rest : string) (d : ascii) :
  bufio.cutAfter s d = Some (line, rest) -> bufio.cutAfter line d = Some (line, "").
Proof.
  revert line rest; induction s as [|c s IH]; simpl; intros line rest Hc; [discriminate|].
  destruct (c =? d)%char eqn:E.
  - injection Hc as <- <-. simpl. now rewrite E.
  - destruct (bufio.cutAfter s d) as [[l r]|]; [|discriminate].
    injection Hc as <- <-. simpl. now rewrite E, (IH l r eq_refl).
Qed.

(** A line that [ReadString] returns without an error is a complete line. *)
Lemma ReadString_completeLine (b b' : bufio.Reader) (l : string) :
  bufio.ReadString b LF = ((l, None), b') -> completeLine l.
Proof.
  intros HR. destruct (ReadString_firstLine b LF) as (H1 & _).
  rewrite HR in H1. simpl in H1. unfold firstLine in H1.
  destruct (bufio.cutAfter (bufio.unread b) LF) as [[line rest]|] eqn:E; simpl in H1.
  - injection H1 as ->. eapply cutAfter_line; exact E.
  - discriminate.
Qed.

Section TwoParsers.
Context {U : UnicodeTables}.

Lemma iteration_agrees (v : locals) (w : HeaderParser.locals) (r : bufio.Reader)
    (b : string) (err : option error) :
  isHeaderComplete v = false -> agree v w ->
  match iteration v r b err with
  | Continue v' =>
    exists w', agree v' w'
               /\ HeaderParser.iteration w b err
                  = (if isHeaderComplete v' then HeaderParser.Break w'
                     else HeaderParser.Continue w')
  | Return (Ret _ None) => False
  | Return _ => True
  end.
Proof.
  intros Hc (Hm & Hu & Hv & Hh & Hb & Hn).
  unfold iteration, HeaderParser.iteration. rewrite Hc, <- Hb, <- Hn. simpl negb. cbv iota zeta.
  destruct err as [e|]; [exact I|].
  destruct (8192 <? _)%Z; [exact I|].
  destruct (b =? CRLF)%string.
  - eexists; split; [|reflexivity]. repeat split; assumption.
  - destruct (count v =? 0)%Z.
    + destruct (strings.Split b " ") as [|m [|u [|ver l]]]; try exact I.
      eexists; split; [|reflexivity]. repeat split; simpl; auto.
    + destruct (strings.SplitN b ":" 2) as [|name [|value l]]; try exact I.
      eexists; split; [|reflexivity]. repeat split; simpl; auto.
      now rewrite Hh, map_app.
Qed.

Lemma iteration_complete (v : locals) (r : bufio.Reader) (b : string) (err : option error) :
  isHeaderComplete v = true ->
  match iteration v r b err with
  | Continue _ => False
  | Return (Ret req None) =>
    err = None /\ Method req = Method (httpReq v) /\ URI req = URI (httpReq v)
    /\ Version req = Version (httpReq v) /\ Headers req = headerArr v
  | Return _ => True
  end.
Proof.
  intros Hc. unfold iteration. rewrite Hc. simpl negb. cbv iota zeta.
  destruct err as [e|]; [exact I|]. simpl Method.
  destruct (_ || _); [simpl; auto|].
  destruct (scanContentLength _ _) as [n [e|]]; simpl; auto.
Qed.

Lemma parsers_agree (fuel : nat) :
  forall (v : locals) (w : HeaderParser.locals) (b b3 : bufio.Reader) (req : HTTPReq),
    isHeaderComplete v = false -> agree v w ->
    parseLoop fuel v b = Some (Ret req None, b3) ->
    exists req2 b2 extra,
      HeaderParser.parseLoop fuel w b = Some (Ret req2 None, b2)
      /\ Method req = HeaderParser.Method req2 /\ URI req = HeaderParser.URI req2
      /\ Version req = HeaderParser.Version req2
      /\ Headers req = map lowerName (HeaderParser.Headers req2)
      /\ completeLine extra
      /\ bufio.unread b2 = extra ++ bufio.unread b3.
Proof.
  induction fuel as [|fuel IH]; intros v w b b3 req Hc Ha; simpl parseLoop; [discriminate|].
  rewrite headerParser_step.
  destruct (bufio.ReadString b LF) as [[line err] b1] eqn:HR.
  pose proof (iteration_agrees v w b1 line err Hc Ha) as Hi.
  destruct (iteration v b1 line err) as [v'|o] eqn:Ei.
  - destruct Hi as (w' & Ha' & Hw). rewrite Hw.
    destruct (isHeaderComplete v') eqn:Hc'.
    + destruct fuel as [|fuel]; simpl parseLoop; [discriminate|].
      destruct (bufio.ReadString b1 LF) as [[extra err'] b1'] eqn:HR'.
      pose proof (iteration_complete v' b1' extra err' Hc') as Hd.
      destruct (iteration v' b1' extra err') as [v''|o]; [contradiction|].
      intros [= -> ->]. destruct Hd as (-> & Hm & Hu & Hv & Hh).
      destruct Ha' as (Hm' & Hu' & Hv' & Hh' & _).
      exists (HeaderParser.finish w'), b1, extra.
      split; [reflexivity|]. unfold HeaderParser.finish. simpl.
      repeat split; try congruence.
      * eapply ReadString_completeLine; exact HR'.
      * now destruct (ReadString_shortens _ _ _ HR').
    + intros Hp. exact (IH v' w' b1 b3 req Hc' Ha' Hp).
  - intros [= -> ->]. contradiction.
Qed.

(** X13.  Whenever the parser with the body reader returns a request, the
    parser of the header alone, run on the same reader, returns one too: the
    same method, target and version, and the same headers but for the case
    of the names, which the first one lowers.  The second one has stopped
    one line earlier: what it leaves unread starts with the line that the
    first one has read past the empty line. *)
Theorem both_parsers_return_the_same_request (b b3 : bufio.Reader) (req : HTTPReq) :
  parseHTTPRequest b = Some (Ret req None, b3) ->
  exists req2 b2 extra,
    HeaderParser.parseHTTPRequest b = Some (Ret req2 None, b2)
    /\ Method req = HeaderParser.Method req2 /\ URI req = HeaderParser.URI req2
    /\ Version req = HeaderParser.Version req2
    /\ Headers req = map lowerName (HeaderParser.Headers req2)
    /\ completeLine extra
    /\ bufio.unread b2 = extra ++ bufio.unread b3.
Proof.
  unfold parseHTTPRequest, HeaderParser.parseHTTPRequest.
  apply parsers_agree; [reflexivity|]. repeat split.
Qed.

(** ** More on the parser with the body reader *)



Lemma scanContentLength_converts (hs : list Header) :
  forall (c n : Z),
    scanContentLength hs c = (n, None) ->
    Forall (fun h => isContentLength h = true -> snd (strconv.Atoi (Value h)) = None) hs.
Proof.
  induction hs as [|h hs IH]; intros c n; simpl; [constructor|].
  unfold isContentLength at 1.
  destruct (Name h =? "content-length")%string eqn:E.
  - destruct (strconv.Atoi (Value h)) as [v [e|]] eqn:Ea; [discriminate|].
    intros Hs. constructor; [intros _; now rewrite Ea | eapply IH; exact Hs].
  - intros Hs. constructor; [unfold isContentLength; congruence | eapply IH; exact Hs].
Qed.

(** X15.  A [Content-Length] that [strconv.Atoi] does not convert is an
    error: when the parser returns a request with a method other than GET
    and HEAD, every one of its [content-length] headers has a value that
    converts. *)
Theorem content_lengths_of_a_request_convert (b b' : bufio.Reader) (req : HTTPReq) :
  parseHTTPRequest b = Some (Ret req None, b') ->
  Method req <> "GET" -> Method req <> "HEAD" ->
  Forall (fun h => isContentLength h = true -> snd (strconv.Atoi (Value h)) = None)
         (Headers req).
Proof.
  intros Hp Hg Hh. unfold parseHTTPRequest in Hp.
  apply parseLoop_body in Hp; [|split; reflexivity].
  rewrite (method_is_neither _ Hg Hh) in Hp. destruct Hp as (n & Hs & _).
  eapply scanContentLength_converts; exact Hs.
Qed.

(** X16.  With exactly one [content-length] header, the length of the
    bounded body reader is the number that [strconv.Atoi] makes of its
    value. *)
Theorem one_content_length_is_the_length
    (b b' : bufio.Reader) (req : HTTPReq) (h : Header) :
  parseHTTPRequest b = Some (Ret req None, b') ->
  Method req <> "GET" -> Method req <> "HEAD" ->
  filter isContentLength (Headers req) = [h] ->
  strconv.Atoi (Value h) = (fst (strconv.Atoi (Value h)), None)
  /\ Body req = Some {| buf := b'; remaining := fst (strconv.Atoi (Value h)) |}.
Proof.
  intros Hp Hg Hh Hf. apply parsed_body in Hp.
  rewrite (method_is_neither _ Hg Hh) in Hp. destruct Hp as (n & Hs & Hb).
  rewrite Hf in Hs. simpl in Hs.
  assert (Hc : isContentLength h = true).
  { assert (Hin : In h (filter isContentLength (Headers req))) by (rewrite Hf; now left).
    apply filter_In in Hin. tauto. }
  unfold isContentLength in Hc. rewrite Hc in Hs.
  destruct (strconv.Atoi (Value h)) as [v [e|]]; [discriminate|].
  injection Hs as <-. simpl. auto.
Qed.

End TwoParsers.

(** ** Lines that end in CR LF *)

Lemma cutCRLF_append (p : string) :
  forall (q line : string),
    cutCRLF (p ++ q) line
    = match cutCRLF p line with
      | Some (l, r) => Some (l, r ++ q)
      | None => cutCRLF q (line ++ p)
      end.
Proof.
  induction p as [|c p IH]; intros q line; simpl.
  - now rewrite append_nil_r.
  - destruct (endsCRLF (line ++ String c "")); [reflexivity|].
    rewrite IH. now rewrite append_assoc.
Qed.

Lemma cutCRLF_line (l rest : string) :
  crlfLine l -> cutCRLF (l ++ rest) "" = Some (l, rest).
Proof. intros Hl. now rewrite cutCRLF_append, Hl. Qed.

Lemma buffer_8192 : Z.of_nat (2 * 4096) = 8192%Z.
Proof. reflexivity. Qed.

Lemma positive_8192 : 0 < 2 * 4096.
Proof. apply Nat.ltb_lt. reflexivity. Qed.

(** ** The parser on the connection itself *)

(** The scan goes from line to line; what follows the last CR LF stays in
    [line] and is never looked at. *)
Lemma scanHeader_cut (s : string) :
  forall st : ConnParser.scan,
    ConnParser.scanHeader s st
    = match cutCRLF s (ConnParser.line st) with
      | None =>
        Ret {| ConnParser.httpReq := ConnParser.httpReq st;
               ConnParser.headerArr := ConnParser.headerArr st;
               ConnParser.line := ConnParser.line st ++ s;
               ConnParser.count := ConnParser.count st |} None
      | Some (l, rest) =>
        match onLine st l with
        | Ret st' _ => ConnParser.scanHeader rest st'
        | Panics why => Panics why
        end
      end.
Proof.
  induction s as [|c s IH]; intros st; simpl.
  - rewrite append_nil_r. now destruct st.
  - destruct (endsCRLF (ConnParser.line st ++ String c "")) eqn:E.
    + unfold onLine. destruct (ConnParser.count st =? 0)%Z.
      * now destruct (strings.Split _ " ") as [|m [|u [|ver l]]].
      * unfold strings.SplitN. now destruct (strings.Cut _ ":") as [[before after]|].
    + rewrite IH. simpl. now rewrite append_assoc.
Qed.

Lemma scanHeader_headers (hs : list string) :
  forall (st : ConnParser.scan) (last : string),
    ConnParser.line st = "" -> (0 < ConnParser.count st)%Z ->
    Forall crlfLine hs -> headLines false hs = true -> cutCRLF last "" = None ->
    exists n,
      ConnParser.scanHeader (joined hs ++ last) st
      = Ret {| ConnParser.httpReq := ConnParser.httpReq st;
               ConnParser.headerArr := (ConnParser.headerArr st ++ map headerOf hs)%list;
               ConnParser.line := last; ConnParser.count := n |} None.
Proof.
  induction hs as [|l hs IH]; intros st last Hl Hn Hls Hw Hlast; rewrite scanHeader_cut, Hl.
  - simpl. rewrite Hlast, app_nil_r. now exists (ConnParser.count st).
  - simpl joined. rewrite append_assoc.
    inversion Hls as [|? ? Hl1 Hls']; subst.
    simpl in Hw. apply andb_prop in Hw. destruct Hw as [Hw1 Hw2].
    rewrite (cutCRLF_line l _ Hl1). unfold onLine.
    destruct (ConnParser.count st =? 0)%Z eqn:E0; [apply Z.eqb_eq in E0; lia|].
    unfold hasColon in Hw1. unfold strings.SplitN.
    destruct (strings.Cut l ":") as [[before after]|] eqn:Ec; [|discriminate].
    edestruct IH as (n & Hs); [| |exact Hls'|exact Hw2|exact Hlast|].
    3: { rewrite Hs. exists n. simpl. unfold headerOf. rewrite Ec.
         now rewrite <- app_assoc. }
    + reflexivity.
    + simpl. lia.
Qed.

Lemma parseHeader_lines (ls : list string) (last tail : string) :
  Forall crlfLine ls -> headLines true ls = true -> cutCRLF last "" = None ->
  ConnParser.parseHeader ((joined ls ++ last) ++ tail) (String.length (joined ls ++ last))
  = Ret (requestOf ls) None.
Proof.
  intros Hls Hw Hlast. unfold ConnParser.parseHeader.
  replace (String.length (joined ls ++ last)) with (String.length (joined ls ++ last) + 0)
    by lia.
  rewrite takeString_append. simpl takeString at 1.
  replace (takeString 0 tail) with "" by now destruct tail.
  rewrite append_nil_r.
  destruct ls as [|l hs].
  - simpl joined. simpl append. rewrite scanHeader_cut. simpl ConnParser.line.
    now rewrite Hlast.
  - simpl joined. rewrite append_assoc, scanHeader_cut. simpl ConnParser.line.
    inversion Hls as [|? ? Hl1 Hls']; subst.
    simpl in Hw. apply andb_prop in Hw. destruct Hw as [Hw1 Hw2].
    rewrite (cutCRLF_line l _ Hl1). unfold onLine. simpl Z.eqb. cbv iota.
    unfold threeTokens in Hw1.
    destruct (strings.Split l " ") as [|m [|u [|ver ts]]] eqn:Es; try discriminate.
    edestruct (scanHeader_headers hs) as (n & Hs);
      [| |exact Hls'|exact Hw2|exact Hlast|rewrite Hs]; [reflexivity | simpl; lia |].
    simpl. unfold token. now rewrite Es.
Qed.

Lemma readLoop_step (fuel : nat) (conn : bufio.Conn) (fullRequest : string) :
  ConnParser.readLoop (S fuel) conn fullRequest
  = let '((data, err), conn') := net.Read conn (2 * 4096) in
    match err with
    | Some _ => Some (Ret HeaderParser.emptyReq None, conn')
    | None =>
      let fullRequest := fullRequest ++ data in
      if (8192 <? Z.of_nat (String.length fullRequest))%Z
      then Some (Ret HeaderParser.emptyReq None, conn')
      else
        match bytes_Index fullRequest (CRLF ++ CRLF) with
        | Some idx => Some (ConnParser.parseHeader fullRequest idx, conn')
        | None => ConnParser.readLoop fuel conn' fullRequest
        end
    end.
Proof. reflexivity. Qed.

(** X17.  The parser on the connection leaves the last header line out.
    When the first read brings the whole header, it takes as the header what
    comes before the first empty line, without the CR LF that ends the last
    line there, and it only looks at lines that end in CR LF: the request it
    returns is made of the lines before the last one.  A request with a
    header line loses it; a request that is a request line alone comes back
    empty. *)
Theorem conn_parser_drops_the_last_line
    (ls : list string) (last body : string) (f : bufio.fragment)
    (fs : list bufio.fragment) (e : error) :
  Forall crlfLine ls -> headLines true ls = true -> cutCRLF last "" = None ->
  bufio.bytes f = (joined ls ++ last) ++ (CRLF ++ CRLF) ++ body ->
  (Z.of_nat (String.length (bufio.bytes f)) <= 8192)%Z ->
  bytes_Index (bufio.bytes f) (CRLF ++ CRLF) = Some (String.length (joined ls ++ last)) ->
  ConnParser.parseHTTPRequest {| bufio.arriving := f :: fs; bufio.closing := e |}
  = Some (Ret (requestOf ls) None, {| bufio.arriving := fs; bufio.closing := e |}).
Proof.
  intros Hls Hw Hlast Hf Hle Hi. unfold ConnParser.parseHTTPRequest.
  rewrite readLoop_step, net_Read_piece by (pose proof buffer_8192; lia).
  cbv zeta. change ("" ++ bufio.bytes f) with (bufio.bytes f).
  destruct (8192 <? _)%Z eqn:E; [apply Z.ltb_lt in E; lia|].
  rewrite Hi, Hf. now rewrite parseHeader_lines.
Qed.

Lemma connParser_cap (fuel : nat) :
  forall (conn conn' : bufio.Conn) (fullRequest : string) (r : ret HeaderParser.HTTPReq),
    ConnParser.readLoop fuel conn fullRequest = Some (r, conn') ->
    (8192 < Z.of_nat (String.length fullRequest)
            + Z.of_nat (String.length (bufio.streamOf (bufio.arriving conn)))
            - Z.of_nat (String.length (bufio.streamOf (bufio.arriving conn'))))%Z ->
    r = Ret HeaderParser.emptyReq None.
Proof.
  induction fuel as [|fuel IH]; intros conn conn' full r; [discriminate|].
  rewrite readLoop_step.
  destruct (bufio.arriving conn) as [|f fs] eqn:Ea.
  - rewrite (net_Read_end conn _ positive_8192 Ea). now intros [= <- <-].
  - destruct (net_Read_next conn _ positive_8192) as (data & c1 & HR & Hl & Hs & _);
      [rewrite Ea; discriminate|].
    rewrite HR. cbv zeta. rewrite Ea in Hs. rewrite Hs.
    destruct (8192 <? _)%Z eqn:E; [now intros [= <- <-]|]. apply Z.ltb_ge in E.
    destruct (bytes_Index _ _) as [idx|].
    + intros [= <- <-]. rewrite !length_append in *. lia.
    + intros Hp Hc. eapply IH; [exact Hp|]. rewrite !length_append in *. lia.
Qed.

(** X18.  The parser on the connection gives up at 8192 bytes: whenever it
    has taken more than 8192 bytes off the connection, what it returns is
    the empty request (it has no error to return, and it does not panic
    then). *)
Theorem conn_parser_returns_nothing_past_the_cap
    (conn conn' : bufio.Conn) (r : ret HeaderParser.HTTPReq) :
  ConnParser.parseHTTPRequest conn = Some (r, conn') ->
  (8192 < Z.of_nat (String.length (bufio.streamOf (bufio.arriving conn)))
          - Z.of_nat (String.length (bufio.streamOf (bufio.arriving conn'))))%Z ->
  r = Ret HeaderParser.emptyReq None.
Proof.
  intros Hp Hc. eapply connParser_cap; [exact Hp|]. simpl. lia.
Qed.

(** ** The printer of lines *)

Lemma prefix_append (sep : string) :
  forall a b : string, String.prefix sep a = true -> String.prefix sep (a ++ b) = true.
Proof.
  induction sep as [|c sep IH]; intros a b H; [now destruct a, b|].
  destruct a as [|d a]; [discriminate|]. simpl in *.
  destruct (ascii_dec c d); [now apply IH | discriminate].
Qed.

Lemma bytes_Index_unfold (s sep : string) :
  bytes_Index s sep
  = if String.prefix sep s then Some 0
    else match s with
         | "" => None
         | String _ s' => option_map S (bytes_Index s' sep)
         end.
Proof. now destruct s. Qed.

(** An occurrence in the bytes read so far is still there after the next
    read. *)
Lemma bytes_Index_append (sep a : string) :
  forall b : string, bytes_Index (a ++ b) sep = None -> bytes_Index a sep = None.
Proof.
  induction a as [|c a IH]; intros b H; rewrite bytes_Index_unfold in H |- *.
  - destruct (String.prefix sep "") eqn:E; [|reflexivity].
    now rewrite (prefix_append sep "" b E) in H.
  - destruct (String.prefix sep (String c a)) eqn:E.
    + now rewrite (prefix_append sep _ b E) in H.
    + simpl append in H. destruct (String.prefix sep (String c (a ++ b))); [discriminate|].
      destruct (bytes_Index (a ++ b) sep) eqn:E2; [discriminate|].
      now rewrite (IH b E2).
Qed.

Lemma printLines_cut (s : string) :
  forall (line : string) (out : list string),
    LinePrinter.printLines s line out
    = match cutCRLF s line with
      | None => out
      | Some (l, rest) => LinePrinter.printLines rest "" (out ++ announce l)
      end.
Proof.
  induction s as [|c s IH]; intros line out; simpl; [reflexivity|].
  destruct (endsCRLF (line ++ String c "")); [reflexivity | apply IH].
Qed.

(** One pass over the bytes prints the lines that have ended, and not what
    follows the last of them. *)
Lemma printLines_lines (ls : list string) :
  forall (last : string) (out : list string),
    Forall crlfLine ls -> cutCRLF last "" = None ->
    LinePrinter.printLines (joined ls ++ last) "" out = (out ++ flat_map announce ls)%list.
Proof.
  induction ls as [|l ls IH]; intros last out Hls Hlast; rewrite printLines_cut.
  - simpl. now rewrite Hlast, app_nil_r.
  - inversion Hls as [|? ? Hl Hls']; subst. simpl joined.
    rewrite append_assoc, (cutCRLF_line l _ Hl), IH by assumption.
    simpl flat_map. now rewrite <- app_assoc.
Qed.

Lemma printer_step (fuel : nat) (conn : bufio.Conn) (fullRequest : string)
    (out : list string) :
  LinePrinter.readLoop (S fuel) conn fullRequest out
  = let '((data, err), conn') := net.Read conn (2 * 4096) in
    match err with
    | Some _ => Some {| written := []; printed := out; left := conn' |}
    | None =>
      let fullRequest := fullRequest ++ data in
      match bytes_Index fullRequest (CRLF ++ CRLF) with
      | Some _ =>
        LinePrinter.readLoop fuel conn' fullRequest
          (LinePrinter.printLines fullRequest "" out)
      | None => LinePrinter.readLoop fuel conn' fullRequest out
      end
    end.
Proof. reflexivity. Qed.

Lemma printer_reads_on (fuel : nat) :
  forall (conn : bufio.Conn) (fullRequest : string) (out : list string),
    String.length (bufio.streamOf (bufio.arriving conn)) < fuel ->
    exists r,
      LinePrinter.readLoop fuel conn fullRequest out = Some r
      /\ bufio.arriving (left r) = [] /\ written r = []
      /\ (bytes_Index (fullRequest ++ bufio.streamOf (bufio.arriving conn)) (CRLF ++ CRLF)
          = None -> printed r = out).
Proof.
  induction fuel as [|fuel IH]; intros conn full out Hf; [lia|].
  rewrite printer_step.
  destruct (bufio.arriving conn) as [|f fs] eqn:Ea.
  - rewrite (net_Read_end conn _ positive_8192 Ea). eexists; repeat split. exact Ea.
  - destruct (net_Read_next conn _ positive_8192) as (data & c1 & HR & Hl & Hs & _);
      [rewrite Ea; discriminate|].
    rewrite HR. cbv zeta. rewrite Ea in Hs. rewrite Hs in Hf |- *.
    rewrite length_append in Hf. rewrite <- append_assoc.
    destruct (bytes_Index (full ++ data) (CRLF ++ CRLF)) as [i|] eqn:Ei.
    + destruct (IH c1 (full ++ data) (LinePrinter.printLines (full ++ data) "" out))
        as (r & Hr & H1 & H2 & _); [lia|].
      exists r; repeat split; try assumption.
      intros Hn. apply bytes_Index_append in Hn. congruence.
    + destruct (IH c1 (full ++ data) out) as (r & Hr & H1 & H2 & H3); [lia|].
      exists r; repeat split; assumption.
Qed.

(** X19.  The printer of lines has no cap: on every connection that ends it
    returns after it has read all the bytes there are, however many, and it
    writes nothing back. *)
Theorem line_printer_reads_to_the_end (conn : bufio.Conn) :
  exists r,
    LinePrinter.httpRequestParser conn = Some r
    /\ bufio.arriving (left r) = [] /\ written r = [].
Proof.
  destruct (printer_reads_on (S (String.length (bufio.streamOf (bufio.arriving conn))))
              conn "" []) as (r & Hr & H1 & H2 & _); [lia|].
  now exists r.
Qed.

(** X20.  The printer prints nothing as long as no empty line has come: on a
    connection whose bytes never hold CR LF CR LF, no line is printed, also
    not the lines that did end. *)
Theorem line_printer_waits_for_the_empty_line (conn : bufio.Conn) (r : served bufio.Conn) :
  bytes_Index (bufio.streamOf (bufio.arriving conn)) (CRLF ++ CRLF) = None ->
  LinePrinter.httpRequestParser conn = Some r ->
  printed r = [].
Proof.
  intros Hn Hp.
  destruct (printer_reads_on (S (String.length (bufio.streamOf (bufio.arriving conn))))
              conn "" []) as (r' & Hr & _ & _ & H3); [lia|].
  unfold LinePrinter.httpRequestParser in Hp. rewrite Hp in Hr.
  injection Hr as <-. now apply H3.
Qed.

(** X21.  Once the empty line has come, every read prints all the lines read
    so far again: when the first read brings the lines [ls1] with the empty
    line among them and the second read brings more, so that the lines are
    [ls2] by then, the lines [ls1] are printed and then the lines [ls2],
    which start with [ls1] once more.  The bytes after the last CR LF are not
    printed. *)
Theorem line_printer_prints_the_lines_again
    (ls1 ls2 : list string) (last1 last2 : string) (f1 f2 : bufio.fragment) (e : error)
    (i : nat) :
  Forall crlfLine ls1 -> cutCRLF last1 "" = None ->
  Forall crlfLine ls2 -> cutCRLF last2 "" = None ->
  bufio.bytes f1 = joined ls1 ++ last1 ->
  bufio.bytes f1 ++ bufio.bytes f2 = joined ls2 ++ last2 ->
  (Z.of_nat (String.length (bufio.bytes f1)) <= 8192)%Z ->
  (Z.of_nat (String.length (bufio.bytes f2)) <= 8192)%Z ->
  bytes_Index (bufio.bytes f1) (CRLF ++ CRLF) = Some i ->
  LinePrinter.httpRequestParser {| bufio.arriving := [f1; f2]; bufio.closing := e |}
  = Some {| written := [];
            printed := (flat_map announce ls1 ++ flat_map announce ls2)%list;
            left := {| bufio.arriving := []; bufio.closing := e |} |}.
Proof.
  intros Hls1 Hlast1 Hls2 Hlast2 Hf1 Hf2 Hle1 Hle2 Hi.
  unfold LinePrinter.httpRequestParser.
  rewrite printer_step, net_Read_piece by (pose proof buffer_8192; lia).
  cbv zeta. change ("" ++ bufio.bytes f1) with (bufio.bytes f1). rewrite Hi.
  cbn [bufio.arriving bufio.streamOf].
  assert (Hk : exists k, String.length (bufio.bytes f1 ++ bufio.bytes f2 ++ "") = S (S k)).
  { rewrite !length_append. destruct f1, f2. simpl. rewrite Nat.add_succ_r. now eexists. }
  destruct Hk as [k ->].
  rewrite printer_step, net_Read_piece by (pose proof buffer_8192; lia).
  cbv zeta.
  destruct (bytes_Index (bufio.bytes f1 ++ bufio.bytes f2) (CRLF ++ CRLF)) as [j|] eqn:Ej;
    [|apply bytes_Index_append in Ej; congruence].
  rewrite Hf2, printLines_lines by assumption.
  rewrite Hf1, printLines_lines by assumption.
  rewrite printer_step, net_Read_end by (exact positive_8192 || reflexivity).
  reflexivity.
Qed.

(** * The other programs on concrete connections *)

Ltac messages :=
  repeat first [ apply Forall_nil
               | apply Forall_cons; [split; [reflexivity | discriminate]|] ].

Ltac lines_end :=
  repeat first [ apply Forall_nil | apply Forall_cons; [reflexivity|] ].

(** X6 at two pieces, the second one "qq". *)
Lemma echo_answers_piece_by_piece_witness :
  tcp_go.handleConnection
    {| bufio.arriving := [piece "h" "i"; piece "q" "q"]; bufio.closing := EOF |}
  = Some {| written := map bufio.bytes [piece "h" "i"; piece "q" "q"]; printed := [];
            left := {| bufio.arriving := []; bufio.closing := EOF |} |}
  /\ forall post,
       tcp_go.handleConnection
         {| bufio.arriving := [piece "h" "i"; piece "q" "q"] ++ quitPiece :: post;
            bufio.closing := EOF |}
       = Some {| written := map bufio.bytes [piece "h" "i"; piece "q" "q"];
                 printed := ["Goodbye"];
                 left := {| bufio.arriving := post; bufio.closing := EOF |} |}.
Proof.
  apply (echo_answers_piece_by_piece [piece "h" "i"; piece "q" "q"] EOF).
  repeat first [ apply Forall_nil
               | apply Forall_cons; [split; [simpl; lia | discriminate]|] ].
Defined.

(** X8 at two lines in one piece and byte by byte. *)
Lemma line_server_is_fragmentation_invariant_witness :
  exists r1 r2,
    lines.handleConn (delivered [terminated "hello" ++ terminated "quit"]) = Some r1
    /\ lines.handleConn (delivered (bytewise (terminated "hello" ++ terminated "quit")))
       = Some r2
    /\ written r1 = written r2 /\ printed r1 = printed r2
    /\ bufio.unread (left r1) = bufio.unread (left r2).
Proof.
  apply (line_server_is_fragmentation_invariant
           (delivered [terminated "hello" ++ terminated "quit"])
           (delivered (bytewise (terminated "hello" ++ terminated "quit"))));
    reflexivity.
Defined.

(** X9 at two messages and "quit", the second message in two pieces. *)
Lemma line_server_answers_until_quit_witness :
  exists r,
    lines.handleConn
      (delivered [terminated "hello" ++ "wor"; terminated "ld" ++ terminated "quit" ++ "rest"])
    = Some r
    /\ written r = (map answer ["hello"; "world"] ++ [terminated "Bye."])%list
    /\ printed r = []
    /\ bufio.unread (left r) = "rest".
Proof.
  apply (line_server_answers_until_quit
           (delivered [terminated "hello" ++ "wor";
                       terminated "ld" ++ terminated "quit" ++ "rest"])
           ["hello"; "world"] "rest").
  - messages.
  - reflexivity.
Defined.

(** X10 at a connection that is reset in the middle of the second line. *)
Lemma line_server_answers_an_unfinished_line_witness :
  exists r,
    lines.handleConn
      {| bufio.arriving := pieces [terminated "hello" ++ "wor"; "ld"];
         bufio.closing := ErrConn "connection reset by peer" |}
    = Some r
    /\ written r = [answer "hello"; answer "world"]
    /\ printed r = ["connection error: connection reset by peer" ++ String LF ""]
    /\ bufio.unread (left r) = "".
Proof.
  apply (line_server_answers_an_unfinished_line
           {| bufio.arriving := pieces [terminated "hello" ++ "wor"; "ld"];
              bufio.closing := ErrConn "connection reset by peer" |}
           ["hello"] "world").
  - messages.
  - split; [reflexivity | discriminate].
  - reflexivity.
Defined.

(** X11 at the two pipelined requests. *)
Lemma header_parser_stops_at_the_empty_line_witness :
  exists b',
    HeaderParser.parseHTTPRequest (bufio.NewReader (delivered [twoRequests]))
    = Some (Ret (requestOf headA) None, b')
    /\ bufio.unread b' = joined headB ++ CRLF.
Proof.
  apply (header_parser_stops_at_the_empty_line
           (bufio.NewReader (delivered [twoRequests])) headA (joined headB ++ CRLF)).
  - lines_end.
  - reflexivity.
  - simpl. lia.
  - reflexivity.
Defined.

(** X12 at the two pipelined requests. *)
Lemma header_parser_takes_pipelined_requests_witness :
  exists b1 b2,
    HeaderParser.parseHTTPRequest (bufio.NewReader (delivered [twoRequests]))
    = Some (Ret (requestOf headA) None, b1)
    /\ HeaderParser.parseHTTPRequest b1 = Some (Ret (requestOf headB) None, b2)
    /\ bufio.unread b2 = "".
Proof.
  apply (header_parser_takes_pipelined_requests
           (bufio.NewReader (delivered [twoRequests])) headA headB "").
  - lines_end.
  - reflexivity.
  - simpl. lia.
  - lines_end.
  - reflexivity.
  - simpl. lia.
  - reflexivity.
Defined.

(** X13 at the two pipelined requests. *)
Lemma both_parsers_return_the_same_request_witness :
  exists req2 b2 extra,
    HeaderParser.parseHTTPRequest (bufio.NewReader (delivered [twoRequests]))
    = Some (Ret req2 None, b2)
    /\ Method requestA = HeaderParser.Method req2 /\ URI requestA = HeaderParser.URI req2
    /\ Version requestA = HeaderParser.Version req2
    /\ Headers requestA = map lowerName (HeaderParser.Headers req2)
    /\ completeLine extra
    /\ bufio.unread b2 = extra ++ bufio.unread afterA.
Proof.
  apply (both_parsers_return_the_same_request
           (bufio.NewReader (delivered [twoRequests])) afterA requestA).
  vm_compute. reflexivity.
Defined.


(** X15 at a POST request with a body of three bytes. *)
Lemma content_lengths_of_a_request_convert_witness :
  Forall (fun h => isContentLength h = true -> snd (strconv.Atoi (Value h)) = None)
         (Headers postRequest).
Proof.
  apply (content_lengths_of_a_request_convert
           (bufio.NewReader (delivered [postThree])) afterPost postRequest).
  - vm_compute. reflexivity.
  - discriminate.
  - discriminate.
Defined.

(** X16 at a POST request with a body of three bytes. *)
Lemma one_content_length_is_the_length_witness :
  strconv.Atoi "3" = (fst (strconv.Atoi "3"), None)
  /\ Body postRequest = Some {| buf := afterPost; remaining := fst (strconv.Atoi "3") |}.
Proof.
  apply (one_content_length_is_the_length
           (bufio.NewReader (delivered [postThree])) afterPost postRequest
           {| Name := "content-length"; Value := "3" |}).
  - vm_compute. reflexivity.
  - discriminate.
  - discriminate.
  - reflexivity.
Defined.

(** X17 at a request with two header lines: the second one is lost. *)
Lemma conn_parser_drops_the_last_line_witness :
  ConnParser.parseHTTPRequest
    {| bufio.arriving :=
         [piece "G" ("ET /a HTTP/1.1" ++ CRLF ++ "Host: x" ++ CRLF ++ "Accept: y"
                     ++ CRLF ++ CRLF ++ "body")];
       bufio.closing := EOF |}
  = Some (Ret {| HeaderParser.Method := "GET"; HeaderParser.URI := "/a";
                 HeaderParser.Version := "HTTP/1.1";
                 HeaderParser.Headers := [{| Name := "Host"; Value := "x" |}] |} None,
          {| bufio.arriving := []; bufio.closing := EOF |}).
Proof.
  apply (conn_parser_drops_the_last_line headA "Accept: y" "body"
           (piece "G" ("ET /a HTTP/1.1" ++ CRLF ++ "Host: x" ++ CRLF ++ "Accept: y"
                       ++ CRLF ++ CRLF ++ "body")) [] EOF).
  - lines_end.
  - reflexivity.
  - reflexivity.
  - reflexivity.
  - simpl. lia.
  - reflexivity.
Defined.

(** X18 at 8193 bytes without an empty line. *)
Lemma conn_parser_returns_nothing_past_the_cap_witness :
  exists (r : ret HeaderParser.HTTPReq) (conn' : bufio.Conn),
    ConnParser.parseHTTPRequest tooLong = Some (r, conn')
    /\ r = Ret HeaderParser.emptyReq None.
Proof.
  exists (Ret HeaderParser.emptyReq None), (delivered []).
  assert (H : ConnParser.parseHTTPRequest tooLong
              = Some (Ret HeaderParser.emptyReq None, delivered []))
    by (vm_compute; reflexivity).
  split; [exact H|].
  apply (conn_parser_returns_nothing_past_the_cap tooLong (delivered [])
           (Ret HeaderParser.emptyReq None) H).
  vm_compute. reflexivity.
Defined.

(** X20 at a request whose empty line never comes. *)
Lemma line_printer_waits_for_the_empty_line_witness :
  printed {| written := []; printed := []; left := delivered [] |} = [].
Proof.
  apply (line_printer_waits_for_the_empty_line (delivered [joined headA])
           {| written := []; printed := []; left := delivered [] |}).
  - vm_compute. reflexivity.
  - vm_compute. reflexivity.
Defined.

(** X21 at a request in two pieces, the empty line in the first. *)
Lemma line_printer_prints_the_lines_again_witness :
  LinePrinter.httpRequestParser
    {| bufio.arriving := [piece "G" ("ET /a HTTP/1.1" ++ CRLF ++ CRLF ++ "ab");
                          piece "c" (CRLF ++ "d")];
       bufio.closing := EOF |}
  = Some {| written := [];
            printed := (flat_map announce linesOnce ++ flat_map announce linesTwice)%list;
            left := {| bufio.arriving := []; bufio.closing := EOF |} |}.
Proof.
  apply (line_printer_prints_the_lines_again linesOnce linesTwice "ab" "d"
           (piece "G" ("ET /a HTTP/1.1" ++ CRLF ++ CRLF ++ "ab")) (piece "c" (CRLF ++ "d"))
           EOF 15).
  - lines_end.
  - reflexivity.
  - lines_end.
  - reflexivity.
  - reflexivity.
  - reflexivity.
  - simpl. lia.
  - simpl. lia.
  - reflexivity.
Defined.
